(** * SmartPrice-Analytics: the listing scraper ([scraper.py])

    A shallow embedding of the extraction core of the e-commerce listing
    scraper: the field normalisers ([extract_price], [extract_discount],
    [extract_rating], [determine_availability]), the pattern matcher
    ([find_element_by_patterns]), the container locator
    ([find_product_containers]), the record extractor
    ([extract_product_data]) and the listing loop ([scrape_listing_page]).

    Python values are modelled as follows.
    - [str] is a sequence of Unicode code points.  The Unicode tables the
      interpreter consults (decimal digits, white space, lower-casing, the
      case-insensitive equivalence of [re.I]) are the fields of the class
      [Unicode]; [ascii_unicode] is the instance used for the examples.
    - [float] is IEEE 754 binary64, through the [spec_float] operations of
      the standard library with [prec = 53] and [emax = 1024].
    - The regular expressions of the source are terms of [regex], run by a
      backtracking matcher with the priorities of Python's [re].
    - A parsed page is a tree of [node]s; [find], [find_all] and [get_text]
      walk it in document order as BeautifulSoup does.
    - The clock read by [datetime.now] and what the network answers to a
      request ([reply]) are threaded as a [world].
    - The calls to the logger are left out: they do not bear on what the
      functions return. *)

From Stdlib Require Import String Ascii.
From Stdlib Require Import List NArith ZArith Bool Lia.
From Stdlib Require Import Floats.SpecFloat.
From Stdlib Require DecimalN.
Import ListNotations.

Set Implicit Arguments.

(** ** Python strings *)

Definition codepoint := N.
Definition str := list codepoint.

(** Reading a UTF-8 string literal of this file as a [str]. *)
Fixpoint utf8_decode (bs : list N) (pending : nat) (acc : N) : str :=
  match bs with
  | [] => []
  | b :: bs' =>
      match pending with
      | O =>
          if (b <? 128)%N then b :: utf8_decode bs' 0 0%N
          else if (b <? 224)%N then utf8_decode bs' 1 (b - 192)%N
          else if (b <? 240)%N then utf8_decode bs' 2 (b - 224)%N
          else utf8_decode bs' 3 (b - 240)%N
      | S O => (acc * 64 + (b - 128))%N :: utf8_decode bs' 0 0%N
      | S n => utf8_decode bs' n (acc * 64 + (b - 128))%N
      end
  end.

Definition u (s : string) : str :=
  utf8_decode (map N_of_ascii (list_ascii_of_string s)) 0 0%N.

Definition str_eqb (a b : str) : bool :=
  if list_eq_dec N.eq_dec a b then true else false.

(** The tables of the interpreter's Unicode database that the scraper
    reaches through [str.strip], [str.lower], [float] and [re]. *)
Class Unicode := {
  (** the decimal value of a character of category Nd *)
  decimal_digit : codepoint -> option N;
  (** [str.isspace] on one character; also [\s] *)
  is_space : codepoint -> bool;
  (** [str.lower] *)
  lower : str -> str;
  (** whether a pattern character matches a text character under [re.I] *)
  ignorecase_eq : codepoint -> codepoint -> bool
}.

(** What every Unicode version guarantees about the characters the
    scraper's patterns single out. *)
Class UnicodeLaws (U : Unicode) : Prop := {
  space_not_digit : forall c, is_space c = true -> decimal_digit c = None;
  full_stop_plain : decimal_digit 46%N = None /\ is_space 46%N = false;
  comma_plain : decimal_digit 44%N = None /\ is_space 44%N = false;
  percent_plain : decimal_digit 37%N = None /\ is_space 37%N = false;
  digit_small : forall c d, decimal_digit c = Some d -> (d <= 9)%N;
  lower_empty : lower [] = []
}.

Section Strings.
Context {U : Unicode}.

Definition is_digit (c : codepoint) : bool :=
  match decimal_digit c with Some _ => true | None => false end.

Fixpoint lstrip (s : str) : str :=
  match s with
  | c :: s' => if is_space c then lstrip s' else s
  | [] => []
  end.

Definition rstrip (s : str) : str := rev (lstrip (rev s)).

(** [s.strip()] *)
Definition strip (s : str) : str := rstrip (lstrip s).

Fixpoint starts_with (p s : str) : bool :=
  match p, s with
  | [], _ => true
  | _ :: _, [] => false
  | a :: p', b :: s' => (a =? b)%N && starts_with p' s'
  end.

(** [p in s] *)
Fixpoint contains (p s : str) : bool :=
  starts_with p s ||
  match s with
  | [] => false
  | _ :: s' => contains p s'
  end.

(** [s.replace(c, new)] for a one-character [c] *)
Definition replace_char (c : codepoint) (new : str) (s : str) : str :=
  flat_map (fun x => if (x =? c)%N then new else [x]) s.
End Strings.

(** ** Regular expressions *)

Inductive atom :=
| AChar (c : codepoint)   (* a literal character *)
| ADigit                  (* \d *)
| ASpace.                 (* \s *)

Inductive cclass :=
| One (a : atom)
| OneOf (l : list atom)      (* [...] *)
| NoneOf (l : list atom).    (* [^...] *)

(** The fragment of [re] syntax the scraper uses: classes, sequencing,
    alternation, and the greedy repetition of a class. *)
Inductive regex :=
| Eps
| Class (c : cclass)
| Cat (r1 r2 : regex)
| Alt (r1 r2 : regex)
| Star (c : cclass).

Definition Opt (r : regex) : regex := Alt r Eps.          (* r? *)
Definition Plus (c : cclass) : regex := Cat (Class c) (Star c).   (* c+ *)

Fixpoint Lit (s : str) : regex :=
  match s with
  | [] => Eps
  | c :: s' => Cat (Class (One (AChar c))) (Lit s')
  end.

Section Matcher.
Context {U : Unicode}.
(** the [re.I] flag *)
Variable icase : bool.

Definition atom_match (a : atom) (c : codepoint) : bool :=
  match a with
  | AChar x => if icase then ignorecase_eq x c else (x =? c)%N
  | ADigit => is_digit c
  | ASpace => is_space c
  end.

Definition class_match (cl : cclass) (c : codepoint) : bool :=
  match cl with
  | One a => atom_match a c
  | OneOf l => existsb (fun a => atom_match a c) l
  | NoneOf l => negb (existsb (fun a => atom_match a c) l)
  end.

Section Run.
Variable A : Type.

(** greedy repetition: take as many characters as possible, give one
    back at a time while the rest of the pattern fails *)
Fixpoint star_loop (p : codepoint -> bool) (s : str)
         (k : str -> option A) : option A :=
  match s with
  | c :: s' =>
      if p c then
        match star_loop p s' k with
        | Some x => Some x
        | None => k s
        end
      else k s
  | [] => k []
  end.

(** [rmatch r s k]: match [r] at the front of [s] and hand the rest of
    the text to [k]; the first success in priority order wins. *)
Fixpoint rmatch (r : regex) (s : str) (k : str -> option A) : option A :=
  match r with
  | Eps => k s
  | Class cl =>
      match s with
      | c :: s' => if class_match cl c then k s' else None
      | [] => None
      end
  | Cat r1 r2 => rmatch r1 s (fun s' => rmatch r2 s' k)
  | Alt r1 r2 =>
      match rmatch r1 s k with
      | Some x => Some x
      | None => rmatch r2 s k
      end
  | Star cl => star_loop (class_match cl) s k
  end.
End Run.

(** A match of [g] followed by [t] at the front of [s]: the text of [g]
    (the capturing group), the text of [t], and what follows. *)
Definition match_here (g t : regex) (s : str) : option (str * str * str) :=
  rmatch g s (fun s1 =>
    rmatch t s1 (fun s2 =>
      Some (firstn (length s - length s1) s,
            firstn (length s1 - length s2) s1,
            s2))).

(** [re.search]: the leftmost position with a match.  The result is the
    text before the match and the match itself. *)
Fixpoint search (g t : regex) (s : str) : option (str * (str * str * str)) :=
  match match_here g t s with
  | Some m => Some ([], m)
  | None =>
      match s with
      | [] => None
      | c :: s' =>
          match search g t s' with
          | Some (pre, m) => Some (c :: pre, m)
          | None => None
          end
      end
  end.

(** [re.sub(r, "", s)]: delete every non-overlapping match, scanning
    from the left. *)
Fixpoint sub_loop (fuel : nat) (r : regex) (s : str) : str :=
  match fuel with
  | O => s
  | S fuel' =>
      match s with
      | [] => []
      | c :: s' =>
          match rmatch r s (fun rest => Some rest) with
          | Some rest =>
              if (length rest <? length s)%nat then sub_loop fuel' r rest
              else c :: sub_loop fuel' r s'
          | None => c :: sub_loop fuel' r s'
          end
      end
  end.

Definition re_sub_empty (r : regex) (s : str) : str :=
  sub_loop (length s) r s.
End Matcher.

(** ** Python floats *)

Definition float := spec_float.
Definition binary64_prec : Z := 53.
Definition binary64_emax : Z := 1024.

Inductive exn :=
| ValueError
| ZeroDivisionError
| AttributeError
| RuntimeError (msg : str)
| OtherException (class_name : str).

Definition float_zero : float := S754_zero false.

(** [float(n)] for a non-negative [int] *)
Definition float_of_int (n : N) : float :=
  binary_normalize binary64_prec binary64_emax (Z.of_N n) 0 false.

(** The binary64 nearest to [m / 10^k], ties to even: the value of the
    decimal literal with digits [m] and [k] digits after the point. *)
Definition float_of_decimal (m : N) (k : N) : float :=
  match m with
  | N0 => float_zero
  | Npos p =>
      let '(q, e, l) :=
        SFdiv_core_binary binary64_prec binary64_emax
          (Zpos p) 0 (10 ^ Z.of_N k) 0 in
      binary_round_aux binary64_prec binary64_emax false q e l
  end.

Definition float_sub : float -> float -> float :=
  SFsub binary64_prec binary64_emax.
Definition float_mul : float -> float -> float :=
  SFmul binary64_prec binary64_emax.
Definition float_eqb : float -> float -> bool := SFeqb.
Definition float_ltb : float -> float -> bool := SFltb.
Definition float_leb : float -> float -> bool := SFleb.

(** [x / y]; Python raises on a zero divisor *)
Definition float_truediv (x y : float) : exn + float :=
  if float_eqb y float_zero then inl ZeroDivisionError
  else inr (SFdiv binary64_prec binary64_emax x y).

(** [bool(x)] *)
Definition float_truthy (x : float) : bool := negb (float_eqb x float_zero).

Fixpoint uint_digits (d : Decimal.uint) : str :=
  match d with
  | Decimal.Nil => []
  | Decimal.D0 d' => 48%N :: uint_digits d'
  | Decimal.D1 d' => 49%N :: uint_digits d'
  | Decimal.D2 d' => 50%N :: uint_digits d'
  | Decimal.D3 d' => 51%N :: uint_digits d'
  | Decimal.D4 d' => 52%N :: uint_digits d'
  | Decimal.D5 d' => 53%N :: uint_digits d'
  | Decimal.D6 d' => 54%N :: uint_digits d'
  | Decimal.D7 d' => 55%N :: uint_digits d'
  | Decimal.D8 d' => 56%N :: uint_digits d'
  | Decimal.D9 d' => 57%N :: uint_digits d'
  end.

(** [str(n)] for a non-negative [int] *)
Definition str_of_int (n : N) : str := uint_digits (N.to_uint n).

(** [|x| * 10] rounded to an integer, ties to even, for [x = m * 2^e] *)
Definition round_tenths (m : positive) (e : Z) : Z :=
  let n := (Zpos m * 10)%Z in
  match e with
  | Zneg p =>
      let d := (2 ^ Zpos p)%Z in
      let q := (n / d)%Z in
      let r := (n mod d)%Z in
      match (2 * r ?= d)%Z with
      | Lt => q
      | Gt => (q + 1)%Z
      | Eq => if Z.even q then q else (q + 1)%Z
      end
  | _ => (n * 2 ^ e)%Z
  end.

(** [f"{x:.1f}"] *)
Definition format_1f (x : float) : str :=
  match x with
  | S754_nan => u "nan"
  | S754_infinity s => if s then u "-inf" else u "inf"
  | S754_zero s => if s then u "-0.0" else u "0.0"
  | S754_finite s m e =>
      let t := Z.to_N (round_tenths m e) in
      (if s then u "-" else []) ++
      str_of_int (t / 10)%N ++ u "." ++ str_of_int (t mod 10)%N
  end.

Section FloatParsing.
Context {U : Unicode}.

(** the longest run of decimal digits at the front, as digit values *)
Fixpoint span_digits (s : str) : list N * str :=
  match s with
  | c :: s' =>
      match decimal_digit c with
      | Some d => let '(ds, r) := span_digits s' in (d :: ds, r)
      | None => ([], s)
      end
  | [] => ([], [])
  end.

Definition digits_value (ds : list N) : N :=
  fold_left (fun acc d => (acc * 10 + d)%N) ds 0%N.

(** [float(s)] on the strings the scraper passes to it.  Both call sites
    hand over text made of decimal digits and full stops only (see
    [cleaned_alphabet] and [rating_numeral_shape]); on such text the
    grammar of [float] is: digits, optionally a full stop and more
    digits, with at least one digit in all.  A sign, an exponent,
    underscores, [inf]/[nan] and surrounding white space, which [float]
    would also accept, never reach it and are not modelled. *)
Definition py_float (s : str) : exn + float :=
  let '(ip, r1) := span_digits s in
  match r1 with
  | [] =>
      match ip with
      | [] => inl ValueError
      | _ => inr (float_of_decimal (digits_value ip) 0)
      end
  | c :: r2 =>
      if (c =? 46)%N then
        let '(fp, r3) := span_digits r2 in
        match r3, ip ++ fp with
        | [], _ :: _ =>
            inr (float_of_decimal (digits_value (ip ++ fp))
                   (N.of_nat (length fp)))
        | _, _ => inl ValueError
        end
      else inl ValueError
  end.
End FloatParsing.

(** ** The Unicode tables restricted to ASCII *)

Definition ascii_lower_char (c : codepoint) : codepoint :=
  if ((65 <=? c) && (c <=? 90))%N then (c + 32)%N else c.

#[export] Instance ascii_unicode : Unicode := {
  decimal_digit c :=
    if ((48 <=? c) && (c <=? 57))%N then Some (c - 48)%N else None;
  is_space c :=
    ((9 <=? c) && (c <=? 13) || (28 <=? c) && (c <=? 32))%N;
  lower s := map ascii_lower_char s;
  ignorecase_eq x c := (ascii_lower_char x =? ascii_lower_char c)%N
}.

(** ** The parsed page *)

(** An attribute value: a string, or a list of strings for the
    multi-valued attributes ([class], [rel], ...). *)
Inductive attr_value :=
| AttrStr (s : str)
| AttrList (l : list str).

(** A node of the tree: character data or an element. *)
#[warnings="-register-all"]
Inductive node :=
| Text (s : str)
| Tag (name : str) (attrs : list (str * attr_value)) (contents : list node).

(** The [BeautifulSoup] object is the root element of the page. *)
Definition soup := node.

(** [str(tag)]: the markup of an element, produced by the parser library. *)
Class Markup := { tag_str : node -> str }.

(** What a search pattern asks of one attribute. *)
Inductive attr_filter :=
| FTrue                                (* [True]: the attribute is present *)
| FString (s : str)                    (* an exact value *)
| FRegex (r : regex) (icase : bool).   (* [re.compile(r)], [re.compile(r, re.I)] *)

(** A pattern dictionary: [{"tag": ..., "attrs": {...}}]. *)
Record pattern := Pattern {
  pat_tag : option str;
  pat_attrs : list (str * attr_filter)
}.

Fixpoint lookup {V : Type} (k : str) (d : list (str * V)) : option V :=
  match d with
  | [] => None
  | (k', v) :: d' => if str_eqb k k' then Some v else lookup k d'
  end.

(** [sep.join(l)] *)
Fixpoint join (sep : str) (l : list str) : str :=
  match l with
  | [] => []
  | [x] => x
  | x :: l' => x ++ sep ++ join sep l'
  end.

Section Tree.
Context {U : Unicode}.

(** every node below [n], in document order *)
Fixpoint descendants (n : node) : list node :=
  match n with
  | Text _ => []
  | Tag _ _ cs => flat_map (fun c => c :: descendants c) cs
  end.

Fixpoint strings (n : node) : list str :=
  match n with
  | Text s => [s]
  | Tag _ _ cs => flat_map strings cs
  end.

(** [element.get_text(strip=True)]: every string below the element,
    stripped, the empty ones dropped, concatenated. *)
Definition get_text_strip (n : node) : str :=
  concat (filter (fun s => negb (str_eqb s []))
                 (map strip (strings n))).

Definition regex_found (r : regex) (icase : bool) (s : str) : bool :=
  match search icase r Eps s with Some _ => true | None => false end.

(** one string of the markup against one filter *)
Definition string_matches (s : str) (f : attr_filter) : bool :=
  match f with
  | FTrue => true
  | FString t => str_eqb s t
  | FRegex r i => regex_found r i s
  end.

(** The value of an attribute ([None] when the tag lacks it) against a
    filter.  A multi-valued attribute matches when one of its values
    does, or when the values joined by a space do. *)
Definition attr_matches (v : option attr_value) (f : attr_filter) : bool :=
  match v with
  | None =>
      match f with
      | FTrue => false
      | FString t => str_eqb t []
      | FRegex _ _ => false
      end
  | Some (AttrStr s) => string_matches s f
  | Some (AttrList l) =>
      existsb (fun s => string_matches s f) l
      || string_matches (join (u " ") l) f
  end.

(** whether a node is an element that satisfies the pattern *)
Definition node_matches (p : pattern) (n : node) : bool :=
  match n with
  | Text _ => false
  | Tag name attrs _ =>
      match pat_tag p with
      | None => true
      | Some t => str_eqb name t
      end
      && forallb (fun kf => attr_matches (lookup (fst kf) attrs) (snd kf))
                 (pat_attrs p)
  end.

(** [n.find_all(tag, attrs=...)] *)
Definition find_all (p : pattern) (n : node) : list node :=
  filter (node_matches p) (descendants n).

(** [n.find(tag, attrs=...)] *)
Definition find (p : pattern) (n : node) : option node :=
  List.find (node_matches p) (descendants n).
End Tree.

(** ** The world outside the scraper *)

(** How the [try] block of [fetch_page] ends for a URL: [session.get],
    [raise_for_status] and the parser give the parsed page, or one of
    them raises.  [Timeout], [HTTPError] and [RequestException] are the
    classes of [requests.exceptions] the method names, the last standing
    for the subclasses that are neither of the first two; an [HTTPError]
    carries the status code of the response attached to it, if one is;
    [Raised] is an exception of any other class. *)
Inductive reply :=
| Parsed (page : soup)
| Timeout
| HTTPError (response : option N)
| RequestException
| Raised (e : exn).

(** The successive readings of the UTC clock, already in ISO format, and
    what the network answers. *)
Record world := World {
  clock : nat -> str;
  web : str -> reply
}.

(** Computations that read the world and may raise. *)
Definition M (A : Type) : Type := world -> (exn + A) * world.

Definition ret {A : Type} (a : A) : M A := fun w => (inr a, w).

Definition bind {A B : Type} (m : M A) (f : A -> M B) : M B :=
  fun w =>
    match m w with
    | (inr a, w') => f a w'
    | (inl e, w') => (inl e, w')
    end.

Definition lift {A : Type} (r : exn + A) : M A := fun w => (r, w).

Notation "x <- m ;; k" := (bind m (fun x => k))
  (at level 61, m at next level, right associativity).

(** [datetime.now(timezone.utc).isoformat()] *)
Definition utc_now_isoformat : M str :=
  fun w => (inr (clock w 0), World (fun n => clock w (S n)) (web w)).

(** ** Utility functions *)

Definition chr (a : ascii) : codepoint := N_of_ascii a.

Section Utilities.
Context {U : Unicode} {K : Markup}.

(** [r"[^\d.,]"] *)
Definition not_price_char : regex :=
  Class (NoneOf [ADigit; AChar (chr "."); AChar (chr ",")]).

Definition extract_price (text : option str) : exn + option float :=
  match text with
  | Some ((_ :: _) as text) =>
      let cleaned := re_sub_empty false not_price_char (strip text) in
      let cleaned := replace_char (chr ",") [] cleaned in
      match cleaned with
      | [] => inr None
      | _ =>
          match py_float cleaned with
          | inr x => inr (Some x)
          | inl ValueError => inr None
          | inl e => inl e
          end
      end
  | _ => inr None
  end.

(** [r"(\d+(?:\.\d+)?)\s*%"]: the capturing group, then the rest *)
Definition percent_group : regex :=
  Cat (Plus (One ADigit))
      (Opt (Cat (Class (One (AChar (chr ".")))) (Plus (One ADigit)))).

Definition percent_tail : regex :=
  Cat (Star (One ASpace)) (Class (One (AChar (chr "%")))).

(** [r"[\d,]+(?:\.\d+)?"] *)
Definition amount_re : regex :=
  Cat (Plus (OneOf [ADigit; AChar (chr ",")]))
      (Opt (Cat (Class (One (AChar (chr ".")))) (Plus (One ADigit)))).

Definition extract_discount (text : option str) : option str :=
  match text with
  | Some ((_ :: _) as text) =>
      match search false percent_group percent_tail text with
      | Some (_, (group1, _, _)) => Some (group1 ++ u "%")
      | None =>
          match search false amount_re Eps text with
          | Some (_, (matched, _, _)) =>
              let amount := replace_char (chr ",") [] matched in
              Some (u "₹" ++ amount)
          | None =>
              match strip text with
              | [] => None
              | stripped => Some stripped
              end
          end
      end
  | _ => None
  end.

(** [r"(\d(?:\.\d)?)"] *)
Definition rating_re : regex :=
  Cat (Class (One ADigit))
      (Opt (Cat (Class (One (AChar (chr ".")))) (Class (One ADigit)))).

Definition extract_rating (text : option str) : exn + option float :=
  match text with
  | Some ((_ :: _) as text) =>
      match search false rating_re Eps text with
      | Some (_, (group1, _, _)) =>
          match py_float group1 with
          | inr rating =>
              if float_leb (float_of_int 0) rating
                 && float_leb rating (float_of_int 5)
              then inr (Some rating) else inr None
          | inl e => inl e
          end
      | None => inr None
      end
  | _ => inr None
  end.

Definition out_of_stock_patterns : list str :=
  map u ["out of stock"; "sold out"; "unavailable"; "not available";
         "currently unavailable"; "out-of-stock"; "soldout"]%string.

Definition in_stock_patterns : list str :=
  map u ["in stock"; "available"; "add to cart"; "buy now";
         "in-stock"; "instock"]%string.

Definition str_truthy (text : option str) : bool :=
  match text with
  | Some (_ :: _) => true
  | _ => false
  end.

Definition determine_availability (element : option node)
           (text : option str) : str :=
  match str_truthy text, element with
  | false, None => u "Unknown"
  | _, _ =>
      let search_text :=
        match text with
        | Some ((_ :: _) as t) => lower t
        | _ => []
        end in
      let search_text :=
        match element with
        | Some e => search_text ++ u " " ++ lower (tag_str e)
        | None => search_text
        end in
      if existsb (fun p => contains p search_text) out_of_stock_patterns
      then u "Out of Stock"
      else if existsb (fun p => contains p search_text) in_stock_patterns
      then u "In Stock"
      else u "Unknown"
  end.

Definition safe_get_text (element : option node) (default : str) : str :=
  match element with
  | None => default
  | Some e => get_text_strip e
  end.

Fixpoint find_element_by_patterns (container : node)
         (tag_patterns : list pattern) : option node :=
  match tag_patterns with
  | [] => None
  | p :: rest =>
      match find p container with
      | Some element => Some element
      | None => find_element_by_patterns container rest
      end
  end.
End Utilities.

(** ** The scraper class *)

(** One row of the result: the dictionary built by [extract_product_data].
    [source_url] is absent until [scrape_listing_page] adds it. *)
Record product := Product {
  product_name : option str;
  current_price : option float;
  mrp : option float;
  discount : option str;
  rating : option float;
  availability : str;
  scrape_timestamp_utc : str;
  source_url : option str
}.

Definition set_discount (p : product) (d : option str) : product :=
  Product (product_name p) (current_price p) (mrp p) d (rating p)
          (availability p) (scrape_timestamp_utc p) (source_url p).

Definition set_source_url (p : product) (url : str) : product :=
  Product (product_name p) (current_price p) (mrp p) (discount p) (rating p)
          (availability p) (scrape_timestamp_utc p) (Some url).

(** [w|w1|...|wn] *)
Fixpoint any_of (w : str) (ws : list str) : regex :=
  match ws with
  | [] => Lit w
  | w' :: ws' => Alt (Lit w) (any_of w' ws')
  end.

(** [{"class": re.compile(r"w|w1|...", re.I)}] *)
Definition class_like (w : string) (ws : list string) : list (str * attr_filter) :=
  [(u "class", FRegex (any_of (u w) (map u ws)) true)].

(** [{"class": re.compile(r"a[-_]?b", re.I)}] *)
Definition class_compound (a b : string) : list (str * attr_filter) :=
  [(u "class",
    FRegex (Cat (Lit (u a))
              (Cat (Opt (Class (OneOf [AChar (chr "-"); AChar (chr "_")])))
                   (Lit (u b)))) true)].

Definition name_patterns : list pattern :=
  [ Pattern (Some (u "h2")) [];
    Pattern (Some (u "h3")) [];
    Pattern (Some (u "a")) (class_like "title" ["name"; "product"]);
    Pattern (Some (u "span")) (class_like "title" ["name"; "product"]);
    Pattern (Some (u "div")) (class_like "title" ["name"; "product"]) ]%string.

Definition current_price_patterns : list pattern :=
  [ Pattern (Some (u "span")) (class_like "price" ["cost"; "sale"; "final"]);
    Pattern (Some (u "div")) (class_like "price" ["cost"; "sale"; "final"]);
    Pattern None [(u "data-price", FTrue)] ]%string.

Definition mrp_patterns : list pattern :=
  [ Pattern (Some (u "span"))
      (class_like "mrp" ["original"; "strike"; "was"; "old"]);
    Pattern (Some (u "del")) [];
    Pattern (Some (u "s")) [];
    Pattern (Some (u "strike")) [] ]%string.

Definition discount_patterns : list pattern :=
  [ Pattern (Some (u "span"))
      (class_like "discount" ["off"; "save"; "percent"]);
    Pattern (Some (u "div"))
      (class_like "discount" ["off"; "save"; "percent"]) ]%string.

Definition rating_patterns : list pattern :=
  [ Pattern (Some (u "span")) (class_like "rating" ["star"; "review"]);
    Pattern (Some (u "div")) (class_like "rating" ["star"; "review"]);
    Pattern None [(u "data-rating", FTrue)] ]%string.

Definition availability_patterns : list pattern :=
  [ Pattern (Some (u "span")) (class_like "stock" ["avail"; "inventory"]);
    Pattern (Some (u "div")) (class_like "stock" ["avail"; "inventory"]) ]%string.

Definition container_patterns : list pattern :=
  [ Pattern None (class_compound "product" "card");
    Pattern None (class_compound "product" "item");
    Pattern None (class_compound "product" "tile");
    Pattern None (class_compound "search" "result");
    Pattern None [(u "data-component-type", FString (u "s-search-result"))];
    Pattern None [(u "class", FRegex (Lit (u "_1AtVbE")) true)] ]%string.

Section Scraper.
Context {U : Unicode} {K : Markup}.

(** [x or None] for a string [x] *)
Definition or_none (s : str) : option str :=
  match s with
  | [] => None
  | _ => Some s
  end.

(** [bool(x)] for an optional float *)
Definition price_truthy (x : option float) : bool :=
  match x with
  | Some v => float_truthy v
  | None => false
  end.

Definition extract_product_data (product_element : node) : M product :=
  let name_elem := find_element_by_patterns product_element name_patterns in
  let price_elem :=
    find_element_by_patterns product_element current_price_patterns in
  let mrp_elem := find_element_by_patterns product_element mrp_patterns in
  let discount_elem :=
    find_element_by_patterns product_element discount_patterns in
  let rating_elem :=
    find_element_by_patterns product_element rating_patterns in
  let availability_elem :=
    find_element_by_patterns product_element availability_patterns in
  let name := or_none (safe_get_text name_elem []) in
  price <- lift (extract_price (Some (safe_get_text price_elem []))) ;;
  list_price <- lift (extract_price (Some (safe_get_text mrp_elem []))) ;;
  let extracted := extract_discount (Some (safe_get_text discount_elem [])) in
  stars <- lift (extract_rating (Some (safe_get_text rating_elem []))) ;;
  let avail :=
    determine_availability availability_elem
      (Some (safe_get_text availability_elem [])) in
  now <- utc_now_isoformat ;;
  let product_data :=
    Product name price list_price extracted stars avail now None in
  match extracted, list_price, price with
  | None, Some m, Some c =>
      if float_truthy m && float_truthy c && float_ltb c m then
        q <- lift (float_truediv (float_sub m c) m) ;;
        let discount_pct := float_mul q (float_of_int 100) in
        ret (set_discount product_data
               (Some (format_1f discount_pct ++ u "%")))
      else ret product_data
  | _, _, _ => ret product_data
  end.

(** the loop of [find_product_containers], over any pattern list *)
Fixpoint first_found (patterns : list pattern) (page : soup) : list node :=
  match patterns with
  | [] => []
  | p :: rest =>
      match find_all p page with
      | [] => first_found rest page
      | found => found
      end
  end.

Definition find_product_containers (page : soup) : list node :=
  first_found container_patterns page.

(** [fetch_page]: the parsed page; [None] when one of the three named
    exceptions is caught; any other exception propagates, and so does the
    [AttributeError] of [e.response.status_code] when the [HTTPError]
    carries no response. *)
Definition fetch_page (url : str) : M (option soup) :=
  fun w =>
    match web w url with
    | Parsed page => (inr (Some page), w)
    | Timeout => (inr None, w)
    | HTTPError (Some _) => (inr None, w)
    | HTTPError None => (inl AttributeError, w)
    | RequestException => (inr None, w)
    | Raised e => (inl e, w)
    end.

(** The [for] loop of [scrape_listing_page].  [extract] is the method
    [self.extract_product_data]; [except Exception] catches whatever it
    raises. *)
Fixpoint scrape_loop (extract : node -> M product) (url : str)
         (containers : list node) (products : list product)
  : M (list product) :=
  match containers with
  | [] => ret products
  | container :: rest =>
      fun w =>
        match extract container w with
        | (inr product_data, w') =>
            if str_truthy (product_name product_data) then
              scrape_loop extract url rest
                (products ++ [set_source_url product_data url]) w'
            else scrape_loop extract url rest products w'
        | (inl _, w') => scrape_loop extract url rest products w'
        end
  end.

(** the part of [scrape_listing_page] that follows a successful fetch *)
Definition extract_listing (page : soup) (url : str) : M (list product) :=
  scrape_loop extract_product_data url (find_product_containers page) [].

Definition scrape_listing_page (url : str) : M (list product) :=
  fetched <- fetch_page url ;;
  match fetched with
  | None => ret []
  | Some page => extract_listing page url
  end.
End Scraper.

(** ** A serialiser for the examples *)

Definition attr_text (v : attr_value) : str :=
  match v with
  | AttrStr s => s
  | AttrList l => join (u " ") l
  end.

(** the double quote *)
Definition quote : codepoint := 34%N.

(** Markup without entity substitution.  On a tree whose strings hold no
    [&], [<], [>] or quote, whose elements are not void and carry at most
    one attribute each, this is what [str(tag)] prints. *)
Fixpoint plain_markup (n : node) : str :=
  match n with
  | Text s => s
  | Tag name attrs cs =>
      u "<" ++ name
      ++ flat_map (fun kv => u " " ++ fst kv ++ u "=" ++ [quote]
                             ++ attr_text (snd kv) ++ [quote]) attrs
      ++ u ">" ++ flat_map plain_markup cs ++ u "</" ++ name ++ u ">"
  end.

#[export] Instance plain_serialiser : Markup := { tag_str := plain_markup }.

(** * Specification-side definitions *)

Section Specification.
Context {U : Unicode} {K : Markup}.

(** the words a pattern denotes *)
Fixpoint lang (icase : bool) (r : regex) (w : str) : Prop :=
  match r with
  | Eps => w = []
  | Class cl => exists c, w = [c] /\ class_match icase cl c = true
  | Cat r1 r2 =>
      exists w1 w2, w = w1 ++ w2 /\ lang icase r1 w1 /\ lang icase r2 w2
  | Alt r1 r2 => lang icase r1 w \/ lang icase r2 w
  | Star cl => Forall (fun c => class_match icase cl c = true) w
  end.

(** [g] then [t] matches in [s] right after the prefix [pre] *)
Definition occurs_at (icase : bool) (g t : regex) (s pre a : str) : Prop :=
  exists b c, s = pre ++ a ++ b ++ c /\ lang icase g a /\ lang icase t b.

(** the characters the price normaliser keeps *)
Definition price_char (c : codepoint) : bool :=
  is_digit c || (c =? 46)%N || (c =? 44)%N.

(** The price normaliser in the words of the specification: drop every
    character but digits, full stops and commas; drop the commas; read
    what is left as a decimal number; no value when nothing is left or
    when it is not a number. *)
Definition price_as_specified (text : str) : option float :=
  let kept := filter price_char text in
  let digits := filter (fun c => negb (c =? 44)%N) kept in
  match digits with
  | [] => None
  | _ =>
      match py_float digits with
      | inr x => Some x
      | inl _ => None
      end
  end.

(** The first numeral of a text, in the words of the specification: the
    first decimal digit, together with the digit after it when a full
    stop and a digit follow.  The result holds the values of the two
    digits. *)
Fixpoint first_numeral (s : str) : option (N * option N) :=
  match s with
  | [] => None
  | c :: s' =>
      match decimal_digit c with
      | Some d =>
          Some (d, match s' with
                   | p :: c2 :: _ =>
                       if (p =? 46)%N then decimal_digit c2 else None
                   | _ => None
                   end)
      | None => first_numeral s'
      end
  end.

(** The rating normaliser in the words of the specification: the value
    of the first numeral, when it lies in the closed interval from 0 to
    5.  [d] stands for the number d and [(d, f)] for d + f/10. *)
Definition rating_as_specified (text : str) : option float :=
  match first_numeral text with
  | None => None
  | Some (d, None) =>
      if (d <=? 5)%N then Some (float_of_decimal d 0) else None
  | Some (d, Some f) =>
      if (10 * d + f <=? 50)%N
      then Some (float_of_decimal (10 * d + f) 1) else None
  end.

(** the numeral that starts with the digit [c], followed by [s'] *)
Definition numeral_at (c : codepoint) (s' : str) : str :=
  match s' with
  | p :: c2 :: _ => if (46 =? p)%N && is_digit c2 then [c; p; c2] else [c]
  | _ => [c]
  end.

(** the text [re.search] captures for the rating pattern *)
Fixpoint first_numeral_text (s : str) : option str :=
  match s with
  | [] => None
  | c :: s' =>
      if is_digit c then Some (numeral_at c s')
      else first_numeral_text s'
  end.

(** the numerals the pattern captures are well-formed for [float] *)
Definition numeral_shape (g : str) : Prop :=
  (exists c d, g = [c] /\ decimal_digit c = Some d) \/
  (exists c d c2 f, g = [c; 46%N; c2] /\
     decimal_digit c = Some d /\ decimal_digit c2 = Some f).

Definition digit_values : list N := map N.of_nat (seq 0 10).

(** what [extract_rating] does with the captured numeral *)
Definition rate (g : option str) : exn + option float :=
  match g with
  | Some group1 =>
      match py_float group1 with
      | inr rating =>
          if float_leb (float_of_int 0) rating
             && float_leb rating (float_of_int 5)
          then inr (Some rating) else inr None
      | inl e => inl e
      end
  | None => inr None
  end.

Inductive availability_state := InStock | OutOfStock | Unknown.

Definition availability_label (st : availability_state) : str :=
  match st with
  | InStock => u "In Stock"
  | OutOfStock => u "Out of Stock"
  | Unknown => u "Unknown"
  end.

(** The search space in the words of the specification: the text in
    lower case, followed, when an element is given, by a space and the
    markup of the element in lower case. *)
Definition search_space (element : option node) (text : option str) : str :=
  match text with
  | Some t => lower t
  | None => []
  end ++
  match element with
  | Some e => u " " ++ lower (tag_str e)
  | None => []
  end.

(** a phrase is a substring of the search space *)
Definition occurs_in (phrase space : str) : Prop :=
  exists a b, space = a ++ phrase ++ b.

(** the out-of-stock phrases are looked for first *)
Definition classify (space : str) : availability_state :=
  if existsb (fun p => contains p space) out_of_stock_patterns
  then OutOfStock
  else if existsb (fun p => contains p space) in_stock_patterns
  then InStock
  else Unknown.

(** the world after one reading of the clock *)
Definition tick (w : world) : world :=
  World (fun n => clock w (S n)) (web w).

(** a record with its time stamp blanked *)
Definition erase_timestamp (p : product) : product :=
  Product (product_name p) (current_price p) (mrp p) (discount p) (rating p)
          (availability p) [] (source_url p).

(** the visible text of the element a pattern list finds *)
Definition field_text (container : node) (patterns : list pattern) : str :=
  safe_get_text (find_element_by_patterns container patterns) [].

(** the discount of the finished record *)
Definition final_discount (extracted : option str)
           (list_price price : option float) : option str :=
  match extracted, list_price, price with
  | None, Some m, Some c =>
      if float_truthy m && float_truthy c && float_ltb c m then
        Some (format_1f
                (float_mul
                   (SFdiv binary64_prec binary64_emax (float_sub m c) m)
                   (float_of_int 100)) ++ u "%")
      else None
  | _, _, _ => extracted
  end.

(** the record [extract_product_data] returns when the clock reads [now] *)
Definition assemble (container : node) (now : str) : product :=
  let price :=
    price_as_specified (field_text container current_price_patterns) in
  let list_price := price_as_specified (field_text container mrp_patterns) in
  let extracted :=
    extract_discount (Some (field_text container discount_patterns)) in
  Product (or_none (field_text container name_patterns))
          price list_price
          (final_discount extracted list_price price)
          (rating_as_specified (field_text container rating_patterns))
          (determine_availability
             (find_element_by_patterns container availability_patterns)
             (Some (field_text container availability_patterns)))
          now None.

(** What each container yields when the containers are tried one after
    the other: the record or the exception, and the world afterwards. *)
Fixpoint outcomes (extract : node -> M product) (containers : list node)
         (w : world) : list (exn + product) * world :=
  match containers with
  | [] => ([], w)
  | c :: rest =>
      let '(r, w') := extract c w in
      let '(rs, w'') := outcomes extract rest w' in
      (r :: rs, w'')
  end.

(** The rows one outcome contributes to the result: the record with its
    source when it has a name, nothing otherwise. *)
Definition surfaced (url : str) (r : exn + product) : list product :=
  match r with
  | inr p => if str_truthy (product_name p) then [set_source_url p url] else []
  | inl _ => []
  end.

(** the row of a container, time stamp apart: present only with a name *)
Definition named_record (url : str) (container : node) : list product :=
  map erase_timestamp (surfaced url (inr (assemble container []))).

(** [(mrp - current_price) / mrp * 100] *)
Definition discount_percent (m c : float) : float :=
  float_mul (SFdiv binary64_prec binary64_emax (float_sub m c) m)
            (float_of_int 100).

(** no sign bit: zero, a positive number, plus infinity (or not a number) *)
Definition unsigned (x : float) : Prop :=
  match x with
  | S754_zero s | S754_infinity s | S754_finite s _ _ => s = false
  | S754_nan => True
  end.

(** a non-empty run of decimal digits *)
Definition digits (s : str) : Prop :=
  s <> [] /\ Forall (fun c => is_digit c = true) s.

(** a number: digits, optionally followed by a full stop and digits *)
Definition number (n : str) : Prop :=
  digits n \/
  exists ip fp, n = ip ++ 46%N :: fp /\ digits ip /\ digits fp.

Definition spaces (ws : str) : Prop :=
  Forall (fun c => is_space c = true) ws.

(** after [pre], the text goes on with the number [n], optional white
    space and a percent sign *)
Definition percentage_at (text pre n : str) : Prop :=
  exists ws post,
    text = pre ++ n ++ ws ++ 37%N :: post /\ number n /\ spaces ws.

(** text that does not go on with a digit *)
Definition no_digit_ahead (r : str) : Prop :=
  match r with
  | [] => True
  | c :: _ => is_digit c = false
  end.

(** white space and a percent sign *)
Definition percent_ahead (r : str) : Prop :=
  exists ws post, r = ws ++ 37%N :: post /\ spaces ws.

Fixpoint take_while (p : codepoint -> bool) (s : str) : str :=
  match s with
  | c :: s' => if p c then c :: take_while p s' else []
  | [] => []
  end.

Fixpoint drop_while (p : codepoint -> bool) (s : str) : str :=
  match s with
  | c :: s' => if p c then drop_while p s' else s
  | [] => []
  end.

(** a digit or a comma *)
Definition amount_char (c : codepoint) : bool :=
  is_digit c || (c =? 44)%N.

(** the decimals at the front of [r]: a full stop and the digits after
    it, when there is at least one *)
Definition decimals (r : str) : str :=
  match r with
  | p :: d :: r' =>
      if (p =? 46)%N && is_digit d then p :: d :: take_while is_digit r'
      else []
  | _ => []
  end.

Definition after_decimals (r : str) : str :=
  match r with
  | p :: d :: r' =>
      if (p =? 46)%N && is_digit d then drop_while is_digit r' else r
  | _ => r
  end.

(** the amount at the front of [s]: the run of digits and commas and
    the decimals that follow it *)
Definition amount_here (s : str) : str :=
  take_while amount_char s ++ decimals (drop_while amount_char s).

(** The numeric-with-commas substring of the specification: the amount
    that starts at the first digit or comma of the text. *)
Fixpoint first_amount (s : str) : option str :=
  match s with
  | [] => None
  | c :: s' => if amount_char c then Some (amount_here s) else first_amount s'
  end.

(** commas stripped *)
Definition without_commas (s : str) : str :=
  filter (fun c => negb (c =? 44)%N) s.

(** The discount normaliser, amended.
    - When a percentage occurs, the number of the leftmost one, with a
      percent sign, is the result.
    - When no percentage occurs and the first amount of the text holds a
      digit, the result is the rupee sign and the amount without its
      commas.
    - When the text holds neither a digit nor a comma, the result is the
      trimmed text, or no value when that is empty. *)
Inductive discount_contract (text : str) : option str -> Prop :=
| DiscountPercent (pre n : str) :
    percentage_at text pre n ->
    (forall pre' n', percentage_at text pre' n' ->
                     length pre <= length pre') ->
    discount_contract text (Some (n ++ u "%"))
| DiscountAmount (a : str) :
    (forall pre n, ~ percentage_at text pre n) ->
    first_amount text = Some a ->
    Exists (fun c => is_digit c = true) a ->
    discount_contract text (Some (u "₹" ++ without_commas a))
| DiscountText :
    Forall (fun c => amount_char c = false) text ->
    discount_contract text (or_none (strip text)).

End Specification.

(** ** Sample pages and worlds; the two rules as the specification words them *)

(** A page with one node for the first container pattern and two nodes
    for the third. *)
Definition card_and_tiles : soup :=
  Tag (u "body") []
    [ Tag (u "div") [(u "class", AttrList [u "product-tile"])]
        [Tag (u "h2") [] [Text (u "Tile A")]];
      Tag (u "div") [(u "class", AttrList [u "Product_Card"; u "wide"])]
        [Tag (u "h2") [] [Text (u "Card")]];
      Tag (u "div") [(u "class", AttrList [u "product-tile"])]
        [Tag (u "h2") [] [Text (u "Tile B")]] ].

(** an extraction method that raises on the elements named [bad] *)
Definition raising_on (bad : str) (c : node) : M product :=
  match c with
  | Tag name _ _ =>
      if str_eqb name bad
      then lift (inl (RuntimeError (u "malformed container")))
      else extract_product_data c
  | Text _ => extract_product_data c
  end.

Definition titled (title : string) : node :=
  Tag (u "div") [(u "class", AttrList [u "product-card"])]
    [Tag (u "h2") [] [Text (u title)]].

Definition steady_world : world :=
  World (fun _ => u "2024-01-01T00:00:00+00:00")
        (fun _ => Parsed card_and_tiles).

Definition ticking_world : world :=
  World (fun n => u "2024-01-01T00:00:0" ++ str_of_int (N.of_nat n))
        (fun _ => Parsed card_and_tiles).

(** a card whose heading is blank, although a later name pattern would
    find a title *)
Definition blank_heading : node :=
  Tag (u "div") [(u "class", AttrList [u "product-card"])]
    [ Tag (u "h2") [] [Text (u "   ")];
      Tag (u "span") [(u "class", AttrList [u "title"])] [Text (u "Phone C")] ].

(** the discount rule as the specification words it: the derivation
    applies whenever no discount was extracted, both prices are present
    and the list price is the greater *)
Definition discount_rule_as_worded (container : node) (w : world) : Prop :=
  forall p m c,
    fst (extract_product_data container w) = inr p ->
    extract_discount (Some (field_text container discount_patterns)) = None ->
    mrp p = Some m -> current_price p = Some c ->
    float_ltb c m = true ->
    discount p = Some (format_1f (discount_percent m c) ++ u "%").

(** a card with a list price, a current price and possibly a discount *)
Definition priced (list_price price : string) (extra : list node) : node :=
  Tag (u "div") [(u "class", AttrList [u "product-card"])]
    ([ Tag (u "h2") [] [Text (u "Phone D")];
       Tag (u "span") [(u "class", AttrList [u "price"])] [Text (u price)];
       Tag (u "del") [] [Text (u list_price)] ] ++ extra).

(** the number [n] directly followed by a percent sign, after [pre] *)
Definition immediate_percentage_at {U : Unicode} (text pre n : str) : Prop :=
  exists post, text = pre ++ n ++ 37%N :: post /\ number n.

(** The discount normaliser as the specification words it: a number
    immediately followed by a percent sign gives that number and the
    sign; failing that, an amount gives the rupee sign and the amount
    without commas; failing both, the trimmed text or no value. *)
Definition discount_as_worded {U : Unicode} (text : str) (out : option str)
  : Prop :=
  ((exists pre n, immediate_percentage_at text pre n) ->
   exists pre n, immediate_percentage_at text pre n /\
                 out = Some (n ++ u "%"))
  /\
  ((forall pre n, ~ immediate_percentage_at text pre n) ->
   forall a, first_amount text = Some a ->
             out = Some (u "₹" ++ without_commas a))
  /\
  ((forall pre n, ~ immediate_percentage_at text pre n) ->
   first_amount text = None -> out = or_none (strip text)).

(** ** Digits *)

(** the values of the digits of a decimal numeral *)
Fixpoint uint_values (d : Decimal.uint) : list N :=
  match d with
  | Decimal.Nil => []
  | Decimal.D0 d' => 0%N :: uint_values d'
  | Decimal.D1 d' => 1%N :: uint_values d'
  | Decimal.D2 d' => 2%N :: uint_values d'
  | Decimal.D3 d' => 3%N :: uint_values d'
  | Decimal.D4 d' => 4%N :: uint_values d'
  | Decimal.D5 d' => 5%N :: uint_values d'
  | Decimal.D6 d' => 6%N :: uint_values d'
  | Decimal.D7 d' => 7%N :: uint_values d'
  | Decimal.D8 d' => 8%N :: uint_values d'
  | Decimal.D9 d' => 9%N :: uint_values d'
  end.

(** the values of the decimal digits of a text, in order *)
Definition digit_values_of {U : Unicode} (s : str) : list N :=
  flat_map (fun c => match decimal_digit c with
                     | Some d => [d]
                     | None => []
                     end) s.

(** how many full stops a text holds *)
Definition full_stops (s : str) : nat := count_occ N.eq_dec s 46%N.

(** ** Tabular export *)

(** A cell of a data frame; [CellMissing] stands for the missing value
    ([None] or [NaN]). *)
Inductive cell :=
| CellStr (s : str)
| CellFloat (x : float)
| CellMissing.

(** A data frame: the column labels and, for each row, one cell per
    column. *)
Record frame := Frame {
  frame_columns : list str;
  frame_rows : list (list cell)
}.

Definition column_order : list str :=
  map u ["product_name"; "current_price"; "mrp"; "discount"; "rating";
         "availability"; "scrape_timestamp_utc"; "source_url"]%string.

Definition cell_of_str (s : option str) : cell :=
  match s with
  | Some v => CellStr v
  | None => CellMissing
  end.

Definition cell_of_float (x : option float) : cell :=
  match x with
  | Some v => CellFloat v
  | None => CellMissing
  end.

(** The dictionary of a record, with its keys in insertion order; the
    key [source_url] is there once [scrape_listing_page] has set it. *)
Definition product_dict (p : product) : list (str * cell) :=
  [ (u "product_name", cell_of_str (product_name p));
    (u "current_price", cell_of_float (current_price p));
    (u "mrp", cell_of_float (mrp p));
    (u "discount", cell_of_str (discount p));
    (u "rating", cell_of_float (rating p));
    (u "availability", CellStr (availability p));
    (u "scrape_timestamp_utc", CellStr (scrape_timestamp_utc p)) ]
  ++ match source_url p with
     | Some url => [(u "source_url", CellStr url)]
     | None => []
     end.

Definition add_key (acc : list str) (k : str) : list str :=
  if existsb (str_eqb k) acc then acc else acc ++ [k].

(** the keys of a list of dictionaries, in order of first appearance *)
Definition keys_union (ds : list (list (str * cell))) : list str :=
  fold_left (fun acc d => fold_left add_key (map fst d) acc) ds [].

Definition cell_at (c : str) (d : list (str * cell)) : cell :=
  match lookup c d with
  | Some v => v
  | None => CellMissing
  end.

(** [pd.DataFrame(columns=cols)] *)
Definition DataFrame_empty (cols : list str) : frame := Frame cols [].

(** [pd.DataFrame(ds)] for a list of dictionaries *)
Definition DataFrame_of_records (ds : list (list (str * cell))) : frame :=
  let cols := keys_union ds in
  Frame cols (map (fun d => map (fun c => cell_at c d) cols) ds).

(** [df.reindex(columns=cols)] *)
Definition reindex_columns (cols : list str) (df : frame) : frame :=
  Frame cols
        (map (fun row =>
                map (fun c => cell_at c (combine (frame_columns df) row)) cols)
             (frame_rows df)).

Section TabularExport.
Context {U : Unicode} {K : Markup}.

Definition scrape_to_dataframe (url : str) : M frame :=
  products <- scrape_listing_page url ;;
  match products with
  | [] => ret (DataFrame_empty column_order)
  | _ =>
      let df := DataFrame_of_records (map product_dict products) in
      ret (reindex_columns column_order df)
  end.
End TabularExport.

(** the cells of a record, in the order of the columns *)
Definition product_row (p : product) : list cell :=
  [ cell_of_str (product_name p); cell_of_float (current_price p);
    cell_of_float (mrp p); cell_of_str (discount p);
    cell_of_float (rating p); CellStr (availability p);
    CellStr (scrape_timestamp_utc p); cell_of_str (source_url p) ].

(** ** Trimmed text *)

(** no white space at either end *)
Definition trimmed {U : Unicode} (s : str) : Prop :=
  lstrip s = s /\ lstrip (rev s) = rev s.

(** a heading whose text is spread over two elements *)
Definition two_part_heading : node :=
  Tag (u "div") []
    [Tag (u "h2") []
       [Text (u "  Phone "); Tag (u "b") [] [Text (u " X  ")]]].

(** * Properties *)

(** ** The matcher against the language of a pattern *)

Section MatcherFacts.
Context {U : Unicode}.
Variable icase : bool.


Lemma star_loop_sound (A : Type) (p : codepoint -> bool) (k : str -> option A) :
  forall s x, star_loop p s k = Some x ->
    exists w s', s = w ++ s' /\ Forall (fun c => p c = true) w /\ k s' = Some x.
Proof.
  induction s as [|c s IH]; intros x H; simpl in H.
  - exists [], []. auto.
  - destruct (p c) eqn:Hp.
    + destruct (star_loop p s k) as [y|] eqn:Hs.
      * inversion H; subst y.
        destruct (IH x eq_refl) as (w & s' & -> & Hw & Hk).
        exists (c :: w), s'. auto.
      * exists [], (c :: s). auto.
    + exists [], (c :: s). auto.
Qed.

Lemma rmatch_sound (A : Type) (r : regex) :
  forall s (k : str -> option A) x, rmatch icase r s k = Some x ->
    exists w s', s = w ++ s' /\ lang icase r w /\ k s' = Some x.
Proof.
  induction r as [|cl|r1 IH1 r2 IH2|r1 IH1 r2 IH2|cl]; intros s k x H; simpl in H.
  - exists [], s. simpl. auto.
  - destruct s as [|c s]; [discriminate|].
    destruct (class_match icase cl c) eqn:Hc; [|discriminate].
    exists [c], s. simpl. split; [reflexivity|].
    split; [exists c; auto|assumption].
  - apply IH1 in H. destruct H as (w1 & s1 & -> & L1 & H).
    apply IH2 in H. destruct H as (w2 & s2 & -> & L2 & H).
    exists (w1 ++ w2), s2. rewrite app_assoc. simpl.
    split; [reflexivity|]. split; [exists w1, w2; auto|assumption].
  - destruct (rmatch icase r1 s k) as [y|] eqn:H1.
    + inversion H; subst y. apply IH1 in H1.
      destruct H1 as (w & s' & -> & L & Hk). exists w, s'. simpl. auto.
    + apply IH2 in H. destruct H as (w & s' & -> & L & Hk).
      exists w, s'. simpl. auto.
  - apply star_loop_sound in H. exact H.
Qed.

Lemma star_loop_complete (A : Type) (p : codepoint -> bool) (k : str -> option A) :
  forall w s', Forall (fun c => p c = true) w -> k s' <> None ->
    star_loop p (w ++ s') k <> None.
Proof.
  induction w as [|c w IH]; intros s' Hw Hk; simpl.
  - destruct s' as [|c s']; [exact Hk|]. simpl.
    destruct (p c); [|exact Hk].
    destruct (star_loop p s' k); [discriminate|exact Hk].
  - inversion Hw; subst. rewrite H1.
    specialize (IH s' H2 Hk).
    destruct (star_loop p (w ++ s') k); [discriminate|contradiction].
Qed.

Lemma rmatch_complete (A : Type) (r : regex) :
  forall w s' (k : str -> option A), lang icase r w -> k s' <> None ->
    rmatch icase r (w ++ s') k <> None.
Proof.
  induction r as [|cl|r1 IH1 r2 IH2|r1 IH1 r2 IH2|cl]; intros w s' k L Hk; simpl in *.
  - subst w. exact Hk.
  - destruct L as (c & -> & Hc). simpl. rewrite Hc. exact Hk.
  - destruct L as (w1 & w2 & -> & L1 & L2). rewrite <- app_assoc.
    apply IH1; [exact L1|]. apply IH2; assumption.
  - destruct L as [L|L].
    + specialize (IH1 w s' k L Hk).
      destruct (rmatch icase r1 (w ++ s') k); [discriminate|contradiction].
    + destruct (rmatch icase r1 (w ++ s') k); [discriminate|].
      apply IH2; assumption.
  - apply star_loop_complete; assumption.
Qed.

(** a maximal run followed by text on which the rest succeeds is taken
    whole *)
Lemma star_loop_greedy (A : Type) (p : codepoint -> bool) (k : str -> option A) :
  forall w s' x, Forall (fun c => p c = true) w -> k s' = Some x ->
    star_loop p (w ++ s') k <> None.
Proof.
  intros w s' x Hw Hk. apply star_loop_complete; [exact Hw|congruence].
Qed.

Lemma firstn_length_diff (a r : str) :
  firstn (length (a ++ r) - length r) (a ++ r) = a.
Proof.
  rewrite length_app.
  replace (length a + length r - length r) with (length a) by lia.
  rewrite firstn_app, Nat.sub_diag, firstn_all. simpl. apply app_nil_r.
Qed.

Lemma match_here_sound (g t : regex) (s a b c : str) :
  match_here icase g t s = Some (a, b, c) ->
  s = a ++ b ++ c /\ lang icase g a /\ lang icase t b.
Proof.
  unfold match_here. intros H.
  apply rmatch_sound in H. destruct H as (w1 & s1 & -> & L1 & H).
  apply rmatch_sound in H. destruct H as (w2 & s2 & -> & L2 & H).
  rewrite !firstn_length_diff in H. inversion H; subst. auto.
Qed.

Lemma match_here_complete (g t : regex) (a b c : str) :
  lang icase g a -> lang icase t b -> match_here icase g t (a ++ b ++ c) <> None.
Proof.
  intros La Lb. unfold match_here.
  apply rmatch_complete; [exact La|].
  apply rmatch_complete; [exact Lb|]. discriminate.
Qed.


Lemma search_sound (g t : regex) :
  forall s pre a b c, search icase g t s = Some (pre, (a, b, c)) ->
    s = pre ++ a ++ b ++ c /\ lang icase g a /\ lang icase t b /\
    forall pre' a', occurs_at icase g t s pre' a' -> length pre <= length pre'.
Proof.
  induction s as [|x s IH]; intros pre a b c H; simpl in H.
  - destruct (match_here icase g t []) as [[[a0 b0] c0]|] eqn:Hm; [|discriminate].
    inversion H; subst. apply match_here_sound in Hm.
    destruct Hm as (E & La & Lb). repeat split; auto. simpl. lia.
  - destruct (match_here icase g t (x :: s)) as [[[a0 b0] c0]|] eqn:Hm.
    + inversion H; subst. apply match_here_sound in Hm.
      destruct Hm as (E & La & Lb). repeat split; auto. simpl. lia.
    + destruct (search icase g t s) as [[pre0 [[a0 b0] c0]]|] eqn:Hs; [|discriminate].
      inversion H; subst.
      destruct (IH _ _ _ _ eq_refl) as (E & La & Lb & Hleft).
      repeat split; auto.
      * simpl. rewrite <- E. reflexivity.
      * intros pre' a' (b' & c' & E' & La' & Lb').
        destruct pre' as [|y pre'].
        -- exfalso. simpl in E'. rewrite E' in Hm.
           exact (@match_here_complete g t a' b' c' La' Lb' Hm).
        -- simpl in E'. inversion E'; subst y.
           simpl. apply le_n_S. apply (Hleft pre' a'). exists b', c'. auto.
Qed.

Lemma search_none (g t : regex) :
  forall s, search icase g t s = None ->
    forall pre a, ~ occurs_at icase g t s pre a.
Proof.
  induction s as [|x s IH]; intros H pre a (b & c & E & La & Lb); simpl in H.
  - destruct (match_here icase g t []) eqn:Hm; [discriminate|].
    destruct pre; [|discriminate]. simpl in E. rewrite E in Hm.
    exact (@match_here_complete g t a b c La Lb Hm).
  - destruct (match_here icase g t (x :: s)) eqn:Hm; [discriminate|].
    destruct pre as [|y pre].
    + simpl in E. rewrite E in Hm.
      exact (@match_here_complete g t a b c La Lb Hm).
    + destruct (search icase g t s) as [[? [[? ?] ?]]|] eqn:Hs; [discriminate|].
      simpl in E. inversion E; subst.
      apply (IH eq_refl pre a). exists b, c. auto.
Qed.

Lemma search_complete (g t : regex) (s pre a : str) :
  occurs_at icase g t s pre a -> search icase g t s <> None.
Proof.
  intros Ho Hn. exact (@search_none g t s Hn pre a Ho).
Qed.
End MatcherFacts.

(** ** The ASCII tables obey the laws *)

#[export] Instance ascii_laws : UnicodeLaws ascii_unicode.
Proof.
  split; try (split; reflexivity); try reflexivity.
  - intros c H. simpl in *.
    destruct ((48 <=? c) && (c <=? 57))%N eqn:E; [|reflexivity].
    apply andb_true_iff in E. destruct E as [E1 E2].
    apply N.leb_le in E1. apply N.leb_le in E2.
    apply orb_true_iff in H. destruct H as [H|H];
      apply andb_true_iff in H; destruct H as [H1 H2];
      apply N.leb_le in H1; apply N.leb_le in H2; lia.
  - intros c d H. simpl in H.
    destruct ((48 <=? c) && (c <=? 57))%N eqn:E; [|discriminate].
    apply andb_true_iff in E. destruct E as [E1 E2].
    apply N.leb_le in E1. apply N.leb_le in E2.
    inversion H. lia.
Qed.

(** ** Price normaliser *)

Section PriceFacts.
Context {U : Unicode}.



Lemma py_float_raises (s : str) (e : exn) :
  py_float s = inl e -> e = ValueError.
Proof.
  unfold py_float. destruct (span_digits s) as [ip r1].
  destruct r1 as [|c r2].
  - destruct ip; intros H; inversion H; reflexivity.
  - destruct (c =? 46)%N.
    + destruct (span_digits r2) as [fp r3].
      destruct r3; destruct (ip ++ fp); intros H; inversion H; reflexivity.
    + intros H; inversion H; reflexivity.
Qed.

Lemma sub_loop_class (cl : cclass) :
  forall fuel s, length s <= fuel ->
    sub_loop false fuel (Class cl) s
    = filter (fun c => negb (class_match false cl c)) s.
Proof.
  induction fuel as [|fuel IH]; intros s Hlen.
  - destruct s; [reflexivity|simpl in Hlen; lia].
  - destruct s as [|c s]; [reflexivity|].
    simpl in Hlen. cbn [sub_loop rmatch filter].
    destruct (class_match false cl c); cbn [negb].
    + replace (length s <? length (c :: s))%nat with true.
      * apply IH. lia.
      * symmetry. apply Nat.ltb_lt. simpl. lia.
    + f_equal. apply IH. lia.
Qed.

Lemma not_price_char_class (c : codepoint) :
  negb (class_match false (NoneOf [ADigit; AChar (chr "."); AChar (chr ",")]) c)
  = price_char c.
Proof.
  unfold price_char. change (chr ".") with 46%N. change (chr ",") with 44%N.
  unfold class_match, existsb, atom_match.
  rewrite negb_involutive, orb_false_r, orb_assoc.
  rewrite (N.eqb_sym 46 c), (N.eqb_sym 44 c). reflexivity.
Qed.

Lemma re_sub_not_price_char (s : str) :
  re_sub_empty false not_price_char s = filter price_char s.
Proof.
  unfold re_sub_empty, not_price_char.
  rewrite sub_loop_class by lia.
  apply filter_ext. exact not_price_char_class.
Qed.

Lemma replace_char_delete (c : codepoint) (s : str) :
  replace_char c [] s = filter (fun x => negb (x =? c)%N) s.
Proof.
  unfold replace_char. induction s as [|x s IH]; [reflexivity|].
  simpl. destruct (x =? c)%N; simpl; rewrite IH; reflexivity.
Qed.

Lemma filter_lstrip (f : codepoint -> bool) :
  (forall c, is_space c = true -> f c = false) ->
  forall s, filter f (lstrip s) = filter f s.
Proof.
  intros Hf. induction s as [|c s IH]; [reflexivity|].
  simpl. destruct (is_space c) eqn:E; [|reflexivity].
  rewrite (Hf c E). exact IH.
Qed.

Lemma filter_strip (f : codepoint -> bool) :
  (forall c, is_space c = true -> f c = false) ->
  forall s, filter f (strip s) = filter f s.
Proof.
  intros Hf s. unfold strip, rstrip.
  rewrite filter_rev, (@filter_lstrip f Hf), <- filter_rev, rev_involutive.
  apply (@filter_lstrip f Hf).
Qed.

Context {L : UnicodeLaws U}.

Lemma space_not_price_char (c : codepoint) :
  is_space c = true -> price_char c = false.
Proof.
  intros H. unfold price_char, is_digit.
  rewrite (space_not_digit c H). simpl.
  destruct (N.eqb_spec c 46) as [->|_].
  - destruct full_stop_plain as [_ E]. congruence.
  - destruct (N.eqb_spec c 44) as [->|_]; [|reflexivity].
    destruct comma_plain as [_ E]. congruence.
Qed.

(** what [extract_price] hands to [float] *)
Lemma cleaned_text (text : str) :
  replace_char (chr ",") []
    (re_sub_empty false not_price_char (strip text))
  = filter (fun c => negb (c =? 44)%N) (filter price_char text).
Proof.
  rewrite re_sub_not_price_char, replace_char_delete.
  rewrite (@filter_strip price_char space_not_price_char). reflexivity.
Qed.

(** [float] only ever sees digits and full stops *)
Lemma cleaned_alphabet (text : str) (c : codepoint) :
  In c (replace_char (chr ",") []
          (re_sub_empty false not_price_char (strip text))) ->
  is_digit c = true \/ c = 46%N.
Proof.
  rewrite cleaned_text. intros H.
  apply filter_In in H. destruct H as [H Hc].
  apply filter_In in H. destruct H as [_ Hp].
  unfold price_char in Hp.
  destruct (is_digit c); [left; reflexivity|right].
  destruct (N.eqb_spec c 46); [assumption|].
  simpl in Hp. rewrite Hp in Hc. discriminate.
Qed.

Lemma extract_price_spec (text : str) :
  extract_price (Some text) = inr (price_as_specified text).
Proof.
  unfold extract_price, price_as_specified.
  destruct text as [|c text]; [reflexivity|].
  rewrite cleaned_text.
  destruct (filter (fun x => negb (x =? 44)%N) (filter price_char (c :: text)))
    as [|d ds] eqn:E;
    [reflexivity|].
  destruct (py_float (d :: ds)) as [e|x] eqn:F; [|reflexivity].
  rewrite (py_float_raises _ F). reflexivity.
Qed.
End PriceFacts.

(** C6 (price normaliser): [extract_price] keeps the digits, full stops
    and commas of its input, removes the commas and reads the rest as a
    decimal number, answering no value when nothing is left or the rest is
    not a number; absent input has no value; ["₹12,999"] is 12999.0,
    ["$999.99"] is the float nearest 999.99, and ["Rs."] has no value. *)
Theorem price_normalizer_contract :
  (forall (U : Unicode), UnicodeLaws U ->
     forall text, extract_price (Some text) = inr (price_as_specified text))
  /\ (forall (U : Unicode), extract_price None = inr None)
  /\ extract_price (Some (u "₹12,999")) = inr (Some (float_of_int 12999))
  /\ extract_price (Some (u "$999.99")) = inr (Some (float_of_decimal 99999 2))
  /\ extract_price (Some (u "Rs.")) = inr None.
Proof.
  split; [|split; [|split; [|split]]].
  - intros U L text. apply extract_price_spec.
  - reflexivity.
  - vm_compute. reflexivity.
  - vm_compute. reflexivity.
  - vm_compute. reflexivity.
Qed.

Lemma price_normalizer_contract_witness :
  extract_price (Some (u "Rs. 15,000"))
  = inr (price_as_specified (u "Rs. 15,000")).
Proof.
  exact (proj1 price_normalizer_contract ascii_unicode ascii_laws
           (u "Rs. 15,000")).
Defined.

(** ** Rating normaliser *)

Section RatingFacts.
Context {U : Unicode}.





Lemma match_here_rating_nil : match_here false rating_re Eps [] = None.
Proof. reflexivity. Qed.

Lemma match_here_rating (c : codepoint) (s' : str) :
  match_here false rating_re Eps (c :: s')
  = if is_digit c then
      Some (match s' with
            | p :: c2 :: r =>
                if (46 =? p)%N && is_digit c2
                then ([c; p; c2], [], r) else ([c], [], s')
            | _ => ([c], [], s')
            end)
    else None.
Proof.
  unfold match_here, rating_re, Opt. change (chr ".") with 46%N.
  cbn [rmatch class_match atom_match].
  destruct (is_digit c); [|reflexivity].
  pose proof (firstn_length_diff [c] s') as E1.
  pose proof (firstn_length_diff [] s') as E2.
  destruct s' as [|p [|c2 r]].
  - reflexivity.
  - destruct (46 =? p)%N; reflexivity.
  - destruct (46 =? p)%N; cbn [andb].
    + destruct (is_digit c2).
      * pose proof (firstn_length_diff [c; p; c2] r) as E3.
        pose proof (firstn_length_diff [] r) as E4.
        cbn [app] in E3, E4. rewrite E3, E4. reflexivity.
      * cbn [app] in E1, E2. rewrite E1, E2. reflexivity.
    + cbn [app] in E1, E2. rewrite E1, E2. reflexivity.
Qed.

Lemma search_rating (s : str) :
  match search false rating_re Eps s with
  | Some (_, (g, _, _)) => Some g
  | None => None
  end = first_numeral_text s.
Proof.
  induction s as [|c s IH]; [reflexivity|].
  cbn [search first_numeral_text]. rewrite match_here_rating.
  destruct (is_digit c).
  - unfold numeral_at. destruct s as [|p [|c2 r]]; try reflexivity.
    destruct ((46 =? p)%N && is_digit c2); reflexivity.
  - destruct (search false rating_re Eps s) as [[pre [[g t] r]]|];
      exact IH.
Qed.

Context {L : UnicodeLaws U}.

Lemma py_float_digit (c : codepoint) (d : N) :
  decimal_digit c = Some d -> py_float [c] = inr (float_of_decimal d 0).
Proof.
  intros H. unfold py_float. cbn [span_digits]. rewrite H. reflexivity.
Qed.

Lemma py_float_digit_point_digit (c c2 : codepoint) (d f : N) :
  decimal_digit c = Some d -> decimal_digit c2 = Some f ->
  py_float [c; 46%N; c2] = inr (float_of_decimal (10 * d + f) 1).
Proof.
  intros H H2. unfold py_float. cbn [span_digits]. rewrite H.
  destruct full_stop_plain as [E _]. rewrite E.
  cbn [N.eqb Pos.eqb span_digits]. rewrite H2.
  cbn [app length]. unfold digits_value. cbn [fold_left N.of_nat].
  f_equal. f_equal. lia.
Qed.


Lemma numeral_at_shape (c : codepoint) (d : N) (s' : str) :
  decimal_digit c = Some d -> numeral_shape (numeral_at c s').
Proof.
  intros D.
  assert (One : numeral_shape [c]).
  { left. exists c, d. split; [reflexivity|exact D]. }
  unfold numeral_at. destruct s' as [|p [|c2 r]]; try exact One.
  destruct (N.eqb_spec 46 p) as [<-|]; cbn [andb]; [|exact One].
  unfold is_digit. destruct (decimal_digit c2) as [f|] eqn:D2.
  - right. exists c, d, c2, f. repeat split; assumption.
  - exact One.
Qed.

Lemma rating_numeral_shape (s g : str) :
  first_numeral_text s = Some g -> numeral_shape g.
Proof.
  induction s as [|c s IH]; [discriminate|].
  cbn [first_numeral_text]. unfold is_digit at 1.
  destruct (decimal_digit c) as [d|] eqn:D; [|exact IH].
  intros H. injection H as <-. exact (@numeral_at_shape c d s D).
Qed.


Lemma small_digit (d : N) : (d <= 9)%N -> In d digit_values.
Proof.
  intros H. unfold digit_values.
  rewrite <- (N2Nat.id d). apply in_map. apply in_seq. lia.
Qed.

(** on one-digit numerals the comparison of floats agrees with the
    comparison of the numbers they stand for *)
Lemma rating_range_one (d : N) :
  (d <= 9)%N ->
  float_leb (float_of_int 0) (float_of_decimal d 0)
  && float_leb (float_of_decimal d 0) (float_of_int 5)
  = (d <=? 5)%N.
Proof.
  intros H. apply small_digit in H.
  assert (G : forallb (fun d =>
                Bool.eqb
                  (float_leb (float_of_int 0) (float_of_decimal d 0)
                   && float_leb (float_of_decimal d 0) (float_of_int 5))
                  (d <=? 5)%N) digit_values = true)
    by (vm_compute; reflexivity).
  rewrite forallb_forall in G. apply Bool.eqb_prop. exact (G d H).
Qed.

Lemma rating_range_two (d f : N) :
  (d <= 9)%N -> (f <= 9)%N ->
  float_leb (float_of_int 0) (float_of_decimal (10 * d + f) 1)
  && float_leb (float_of_decimal (10 * d + f) 1) (float_of_int 5)
  = (10 * d + f <=? 50)%N.
Proof.
  intros Hd Hf. apply small_digit in Hd. apply small_digit in Hf.
  assert (G : forallb (fun d => forallb (fun f =>
                Bool.eqb
                  (float_leb (float_of_int 0) (float_of_decimal (10 * d + f) 1)
                   && float_leb (float_of_decimal (10 * d + f) 1) (float_of_int 5))
                  (10 * d + f <=? 50)%N) digit_values) digit_values = true)
    by (vm_compute; reflexivity).
  rewrite forallb_forall in G. specialize (G d Hd).
  rewrite forallb_forall in G. apply Bool.eqb_prop. exact (G f Hf).
Qed.


Lemma rate_one (c : codepoint) (d : N) :
  decimal_digit c = Some d ->
  rate (Some [c])
  = inr (if (d <=? 5)%N then Some (float_of_decimal d 0) else None).
Proof.
  intros D. unfold rate. rewrite (@py_float_digit c d D).
  rewrite (@rating_range_one d (digit_small c D)).
  destruct (d <=? 5)%N; reflexivity.
Qed.

Lemma rate_two (c c2 : codepoint) (d f : N) :
  decimal_digit c = Some d -> decimal_digit c2 = Some f ->
  rate (Some [c; 46%N; c2])
  = inr (if (10 * d + f <=? 50)%N
         then Some (float_of_decimal (10 * d + f) 1) else None).
Proof.
  intros D D2. unfold rate. rewrite (@py_float_digit_point_digit c c2 d f D D2).
  rewrite (@rating_range_two d f (digit_small c D) (digit_small c2 D2)).
  destruct (10 * d + f <=? 50)%N; reflexivity.
Qed.

Lemma rate_first_numeral (s : str) :
  rate (first_numeral_text s) = inr (rating_as_specified s).
Proof.
  unfold rating_as_specified.
  induction s as [|c s IH]; [reflexivity|].
  cbn [first_numeral_text first_numeral]. unfold is_digit at 1.
  destruct (decimal_digit c) as [d|] eqn:D; [|exact IH]. clear IH.
  unfold numeral_at.
  destruct s as [|p [|c2 r]]; try exact (@rate_one c d D).
  rewrite (N.eqb_sym p 46).
  destruct (N.eqb_spec 46 p) as [<-|]; cbn [andb]; [|exact (@rate_one c d D)].
  unfold is_digit. destruct (decimal_digit c2) as [f|] eqn:D2.
  - exact (@rate_two c c2 d f D D2).
  - exact (@rate_one c d D).
Qed.

Lemma extract_rating_spec (text : str) :
  extract_rating (Some text) = inr (rating_as_specified text).
Proof.
  destruct text as [|c text]; [reflexivity|].
  rewrite <- rate_first_numeral, <- search_rating.
  unfold extract_rating, rate.
  destruct (search false rating_re Eps (c :: text)) as [[pre [[g t] r]]|];
    reflexivity.
Qed.
End RatingFacts.

(** C7 (rating normaliser): [extract_rating] reads the first numeral of
    the text, a digit optionally followed by a full stop and one more
    digit, and answers its value when it lies in [0, 5] and no value
    otherwise; later numerals are not looked at; ["7 out of 5"] has no
    value and ["4.5 out of 5"] is 4.5. *)
Theorem rating_normalizer_contract :
  (forall (U : Unicode), UnicodeLaws U ->
     forall text, extract_rating (Some text) = inr (rating_as_specified text))
  /\ (forall (U : Unicode) (L : UnicodeLaws U) pre c d rest1 rest2,
        Forall (fun x => decimal_digit x = None) pre ->
        decimal_digit c = Some d ->
        numeral_at c rest1 = numeral_at c rest2 ->
        extract_rating (Some (pre ++ c :: rest1))
        = extract_rating (Some (pre ++ c :: rest2)))
  /\ extract_rating (Some (u "7 out of 5")) = inr None
  /\ extract_rating (Some (u "4.5 out of 5"))
     = inr (Some (float_of_decimal 45 1)).
Proof.
  split; [|split; [|split]].
  - intros U L text. apply extract_rating_spec.
  - intros U L pre c d rest1 rest2 Hpre D E.
    rewrite !extract_rating_spec. f_equal.
    unfold rating_as_specified.
    assert (F : forall rest,
               rate (first_numeral_text (pre ++ c :: rest))
               = rate (Some (numeral_at c rest))).
    { intros rest. f_equal. induction Hpre as [|x pre Hx Hpre IH].
      - cbn [app first_numeral_text]. unfold is_digit. rewrite D. reflexivity.
      - cbn [app first_numeral_text]. unfold is_digit. rewrite Hx. exact IH. }
    pose proof (F rest1) as F1. pose proof (F rest2) as F2.
    rewrite E in F1. rewrite <- F2 in F1.
    rewrite !rate_first_numeral in F1. unfold rating_as_specified in F1.
    injection F1 as F1. exact F1.
  - vm_compute. reflexivity.
  - vm_compute. reflexivity.
Qed.

Lemma rating_normalizer_contract_witness :
  extract_rating
    (Some (u "Rated " ++ 52%N :: u ".5 out of 5 by 1200 buyers"))
  = extract_rating (Some (u "Rated " ++ 52%N :: u ".5")).
Proof.
  apply (proj1 (proj2 rating_normalizer_contract) ascii_unicode ascii_laws
           (u "Rated ") 52%N 4%N).
  - vm_compute. repeat constructor.
  - reflexivity.
  - vm_compute. reflexivity.
Defined.

(** ** Availability classifier *)



Section AvailabilityFacts.
Context {U : Unicode} {K : Markup}.



Lemma starts_with_spec (p s : str) :
  starts_with p s = true <-> exists b, s = p ++ b.
Proof.
  revert s. induction p as [|x p IH]; intros s; simpl.
  - split; [intros _; exists s; reflexivity|reflexivity].
  - destruct s as [|y s].
    + split; [discriminate|]. intros [b E]. discriminate.
    + rewrite andb_true_iff, N.eqb_eq, IH. split.
      * intros [-> [b ->]]. exists b. reflexivity.
      * intros [b E]. inversion E; subst. split; [reflexivity|].
        exists b. reflexivity.
Qed.

(** [contains p s] is: [p] is a substring of [s] *)
Lemma contains_spec (p s : str) :
  contains p s = true <-> exists a b, s = a ++ p ++ b.
Proof.
  induction s as [|y s IH]; simpl.
  - rewrite orb_false_r, starts_with_spec. split.
    + intros [b E]. exists [], b. exact E.
    + intros [a [b E]]. destruct a; [exists b; exact E|discriminate].
  - rewrite orb_true_iff, starts_with_spec, IH. split.
    + intros [[b E]|[a [b E]]].
      * exists [], b. exact E.
      * exists (y :: a), b. rewrite E. reflexivity.
    + intros [a [b E]]. destruct a as [|z a].
      * left. exists b. exact E.
      * right. inversion E; subst. exists a, b. reflexivity.
Qed.

Lemma classify_empty : classify [] = Unknown.
Proof. vm_compute. reflexivity. Qed.

Context {L : UnicodeLaws U}.

Lemma determine_availability_spec (element : option node) (text : option str) :
  determine_availability element text
  = availability_label (classify (search_space element text)).
Proof.
  unfold determine_availability, search_space.
  destruct text as [[|c t]|]; destruct element as [e|]; cbn [str_truthy];
    try rewrite lower_empty; try rewrite app_nil_r;
    try (change (@nil codepoint) with (@nil N); rewrite classify_empty);
    try reflexivity;
    unfold classify;
    match goal with
    | |- context [existsb ?f out_of_stock_patterns] =>
        destruct (existsb f out_of_stock_patterns); [reflexivity|]
    end;
    match goal with
    | |- context [existsb ?f in_stock_patterns] =>
        destruct (existsb f in_stock_patterns); reflexivity
    end.
Qed.
End AvailabilityFacts.

Lemma some_phrase_occurs (phrases : list str) (space : str) :
  existsb (fun p => contains p space) phrases = true
  <-> exists p, In p phrases /\ occurs_in p space.
Proof.
  rewrite existsb_exists. unfold occurs_in. split.
  - intros (p & Hin & C). exists p. split; [exact Hin|].
    apply (@contains_spec p space). exact C.
  - intros (p & Hin & C). exists p. split; [exact Hin|].
    apply (@contains_spec p space). exact C.
Qed.

Lemma no_phrase_occurs (phrases : list str) (space : str) :
  (forall p, In p phrases -> ~ occurs_in p space) ->
  existsb (fun p => contains p space) phrases = false.
Proof.
  intros H.
  destruct (existsb (fun p => contains p space) phrases) eqn:E;
    [|reflexivity].
  apply some_phrase_occurs in E. destruct E as (p & Hin & C).
  destruct (H p Hin C).
Qed.

(** C5 (availability classifier): [determine_availability] looks in the
    lower-cased text, joined to the lower-cased markup of the element when
    there is one, first for an out-of-stock phrase and then for an
    in-stock phrase; the answer is one of the three labels; a search space
    that holds ["out of stock"] is out of stock whatever else it holds;
    with neither text nor element the answer is ["Unknown"].  Phrase by
    phrase: a search space that holds any of the seven out-of-stock
    phrases gives ["Out of Stock"]; one that holds none of them and any of
    the six in-stock phrases gives ["In Stock"]; one that holds none of
    the thirteen gives ["Unknown"].  The examples are a text in stock, an
    element whose class alone says so, a text that says neither, and a
    text that says both. *)
Theorem availability_classifier_contract :
  (forall (U : Unicode) (K : Markup), UnicodeLaws U ->
   forall (element : option node) (text : option str),
     determine_availability element text
     = availability_label (classify (search_space element text))
     /\ In (determine_availability element text)
           [u "In Stock"; u "Out of Stock"; u "Unknown"]
     /\ (forall a b,
           search_space element text = a ++ u "out of stock" ++ b ->
           determine_availability element text = u "Out of Stock")
     /\ (element = None -> str_truthy text = false ->
         determine_availability element text = u "Unknown")
     /\ (forall p,
           In p [u "out of stock"; u "sold out"; u "unavailable";
                 u "not available"; u "currently unavailable";
                 u "out-of-stock"; u "soldout"] ->
           occurs_in p (search_space element text) ->
           determine_availability element text = u "Out of Stock")
     /\ ((forall p,
            In p [u "out of stock"; u "sold out"; u "unavailable";
                  u "not available"; u "currently unavailable";
                  u "out-of-stock"; u "soldout"] ->
            ~ occurs_in p (search_space element text)) ->
         forall q,
           In q [u "in stock"; u "available"; u "add to cart"; u "buy now";
                 u "in-stock"; u "instock"] ->
           occurs_in q (search_space element text) ->
           determine_availability element text = u "In Stock")
     /\ ((forall p,
            In p [u "out of stock"; u "sold out"; u "unavailable";
                  u "not available"; u "currently unavailable";
                  u "out-of-stock"; u "soldout"] ->
            ~ occurs_in p (search_space element text)) ->
         (forall q,
            In q [u "in stock"; u "available"; u "add to cart"; u "buy now";
                  u "in-stock"; u "instock"] ->
            ~ occurs_in q (search_space element text)) ->
         determine_availability element text = u "Unknown"))
  /\ determine_availability None (Some (u "In stock")) = u "In Stock"
  /\ determine_availability
       (Some (Tag (u "span") [(u "class", AttrList [u "in-stock"])]
                [Text (u "5 left")]))
       (Some (u "5 left")) = u "In Stock"
  /\ determine_availability None (Some (u "Ships in 3 days")) = u "Unknown"
  /\ determine_availability None (Some (u "In stock? No: out of stock"))
     = u "Out of Stock".
Proof.
  split; [|vm_compute; auto].
  intros U K L element text.
  pose proof (determine_availability_spec element text) as E.
  split; [exact E|]. split; [|split; [|split; [|split; [|split]]]].
  - rewrite E. destruct (classify (search_space element text)); simpl; auto.
  - intros a b H. rewrite E. unfold classify.
    assert (C : contains (u "out of stock") (search_space element text) = true)
      by (apply contains_spec; exists a, b; exact H).
    replace (existsb (fun p => contains p (search_space element text))
               out_of_stock_patterns) with true; [reflexivity|].
    symmetry. apply existsb_exists. exists (u "out of stock").
    split; [left; reflexivity|exact C].
  - intros -> H. destruct text as [[|c t]|]; try discriminate; reflexivity.
  - intros p Hin C. rewrite E. unfold classify.
    replace (existsb (fun p => contains p (search_space element text))
               out_of_stock_patterns) with true; [reflexivity|].
    symmetry. apply some_phrase_occurs. exists p. split; [exact Hin|exact C].
  - intros Hout q Hin C. rewrite E. unfold classify.
    rewrite (@no_phrase_occurs out_of_stock_patterns _ Hout).
    replace (existsb (fun p => contains p (search_space element text))
               in_stock_patterns) with true; [reflexivity|].
    symmetry. apply some_phrase_occurs. exists q. split; [exact Hin|exact C].
  - intros Hout Hin. rewrite E. unfold classify.
    rewrite (@no_phrase_occurs out_of_stock_patterns _ Hout).
    rewrite (@no_phrase_occurs in_stock_patterns _ Hin). reflexivity.
Qed.

Lemma availability_classifier_contract_witness :
  determine_availability None (Some (u "Was in stock, now OUT OF STOCK"))
  = u "Out of Stock"
  /\ determine_availability None (Some (u "Buy now, pay later"))
     = u "In Stock".
Proof.
  split.
  - refine (proj1 (proj2 (proj2
      (proj1 availability_classifier_contract ascii_unicode plain_serialiser
         ascii_laws None (Some (u "Was in stock, now OUT OF STOCK")))))
      (u "was in stock, now ") [] _).
    vm_compute. reflexivity.
  - refine (proj1 (proj2 (proj2 (proj2 (proj2 (proj2
      (proj1 availability_classifier_contract ascii_unicode plain_serialiser
         ascii_laws None (Some (u "Buy now, pay later"))))))))
      _ (u "buy now") _ _).
    + intros p Hin C.
      assert (X : existsb
                    (fun p => contains p
                       (search_space None (Some (u "Buy now, pay later"))))
                    out_of_stock_patterns = true).
      { apply some_phrase_occurs. exists p. split; [exact Hin|exact C]. }
      vm_compute in X. discriminate X.
    + vm_compute. auto.
    + exists [], (u ", pay later"). vm_compute. reflexivity.
Defined.

(** ** Pattern matcher and container locator *)

Section SearchFacts.
Context {U : Unicode}.

(** [List.find] answers the first element, in order, that passes *)
Lemma find_first (A : Type) (f : A -> bool) :
  forall l x, List.find f l = Some x ->
    exists pre post, l = pre ++ x :: post /\ f x = true /\
      forall y, In y pre -> f y = false.
Proof.
  induction l as [|a l IH]; intros x H; simpl in H; [discriminate|].
  destruct (f a) eqn:E.
  - inversion H; subst a. exists [], l. simpl. repeat split; tauto.
  - destruct (IH x H) as (pre & post & -> & Hx & Hpre).
    exists (a :: pre), post. simpl. repeat split; auto.
    intros y [<-|Hy]; auto.
Qed.

Lemma find_none_iff (p : pattern) (n : node) :
  find p n = None <->
  forall d, In d (descendants n) -> node_matches p d = false.
Proof.
  unfold find. split.
  - apply find_none.
  - intros H. destruct (List.find (node_matches p) (descendants n)) eqn:E;
      [|reflexivity].
    apply find_some in E. destruct E as [Hin Hm].
    rewrite (H _ Hin) in Hm. discriminate.
Qed.

Lemma find_all_nil_iff (p : pattern) (n : node) :
  find_all p n = [] <->
  forall d, In d (descendants n) -> node_matches p d = false.
Proof.
  unfold find_all. split.
  - intros H d Hd. destruct (node_matches p d) eqn:E; [|reflexivity].
    assert (F : In d (filter (node_matches p) (descendants n)))
      by (apply filter_In; auto).
    rewrite H in F. destruct F.
  - intros H. induction (descendants n) as [|a l IH]; [reflexivity|].
    simpl. rewrite (H a (or_introl eq_refl)). apply IH.
    intros d Hd. apply H. right. exact Hd.
Qed.

Lemma find_element_by_patterns_some (container : node) :
  forall patterns e,
    find_element_by_patterns container patterns = Some e ->
    exists before p after,
      patterns = before ++ p :: after /\
      (forall q, In q before -> find q container = None) /\
      find p container = Some e.
Proof.
  induction patterns as [|p rest IH]; intros e H; simpl in H; [discriminate|].
  destruct (find p container) as [x|] eqn:E.
  - inversion H; subst x. exists [], p, rest. simpl. repeat split; tauto.
  - destruct (IH e H) as (before & q & after & -> & Hb & Hq).
    exists (p :: before), q, after. simpl. repeat split; auto.
    intros r [<-|Hr]; auto.
Qed.

Lemma find_element_by_patterns_none (container : node) :
  forall patterns,
    find_element_by_patterns container patterns = None <->
    forall p, In p patterns -> find p container = None.
Proof.
  induction patterns as [|p rest IH]; simpl.
  - split; [intros _ q []|reflexivity].
  - destruct (find p container) as [x|] eqn:E.
    + split; [discriminate|]. intros H.
      specialize (H p (or_introl eq_refl)). congruence.
    + rewrite IH. split.
      * intros H q [<-|Hq]; auto.
      * intros H q Hq. apply H. right. exact Hq.
Qed.

Lemma first_found_some :
  forall patterns page,
    first_found patterns page <> [] ->
    exists before p after,
      patterns = before ++ p :: after /\
      (forall q, In q before -> find_all q page = []) /\
      find_all p page <> [] /\
      first_found patterns page = find_all p page.
Proof.
  induction patterns as [|p rest IH]; intros page H; simpl in *; [congruence|].
  destruct (find_all p page) as [|x xs] eqn:E.
  - destruct (IH page H) as (before & q & after & -> & Hb & Hq & Hr).
    exists (p :: before), q, after. simpl. repeat split; auto.
    intros r [<-|Hr']; auto.
  - exists [], p, rest. simpl. rewrite E.
    repeat split; try tauto; try discriminate.
Qed.

Lemma first_found_nil :
  forall patterns page,
    first_found patterns page = [] <->
    forall q, In q patterns -> find_all q page = [].
Proof.
  induction patterns as [|p rest IH]; intros page; simpl.
  - split; [intros _ q []|reflexivity].
  - destruct (find_all p page) as [|x xs] eqn:E.
    + rewrite IH. split.
      * intros H q [<-|Hq]; auto.
      * intros H q Hq. apply H. right. exact Hq.
    + split; [discriminate|]. intros H.
      specialize (H p (or_introl eq_refl)). congruence.
Qed.
End SearchFacts.

(** C8 (pattern matcher): [find_element_by_patterns] answers the first
    descendant, in document order, found by the first pattern of the list
    that finds anything, whatever the later patterns would find; it
    answers [None] exactly when no pattern of the list matches any
    descendant of the container. *)
Theorem pattern_matcher_first_success :
  forall (U : Unicode) (container : node) (patterns : list pattern),
    (find_element_by_patterns container patterns = None <->
     forall p d, In p patterns -> In d (descendants container) ->
                 node_matches p d = false)
    /\
    (forall e, find_element_by_patterns container patterns = Some e ->
       exists before p after,
         patterns = before ++ p :: after /\
         (forall q d, In q before -> In d (descendants container) ->
                      node_matches q d = false) /\
         find_element_by_patterns container (before ++ [p]) = Some e /\
         exists pre post,
           descendants container = pre ++ e :: post /\
           node_matches p e = true /\
           forall d, In d pre -> node_matches p d = false).
Proof.
  intros U container patterns. split.
  - rewrite find_element_by_patterns_none. split.
    + intros H p d Hp. apply find_none_iff. apply H. exact Hp.
    + intros H p Hp. apply find_none_iff. intros d. apply H. exact Hp.
  - intros e H.
    destruct (find_element_by_patterns_some _ _ H)
      as (before & p & after & E & Hb & Hp).
    exists before, p, after. split; [exact E|]. split; [|split].
    + intros q d Hq. apply find_none_iff. apply Hb. exact Hq.
    + clear E H. induction before as [|q before IH]; simpl.
      * rewrite Hp. reflexivity.
      * rewrite (Hb q (or_introl eq_refl)). apply IH.
        intros r Hr. apply Hb. right. exact Hr.
    + apply find_first. exact Hp.
Qed.


(** C3 (container locator): the container patterns are tried in their
    order; the matches of the first pattern that matches anything are the
    whole result, and a node that matches only a later pattern is left
    out; with no matching pattern the result is empty.  On a page with one
    card and two tiles only the card is returned. *)
Theorem container_locator_first_match_wins :
  (forall (U : Unicode) (page : soup),
     (exists before p after,
        container_patterns = before ++ p :: after /\
        (forall q, In q before -> find_all q page = []) /\
        find_all p page <> [] /\
        find_product_containers page = find_all p page /\
        (forall n, In n (find_product_containers page) ->
                   node_matches p n = true))
     \/
     ((forall q, In q container_patterns -> find_all q page = []) /\
      find_product_containers page = []))
  /\
  find_product_containers card_and_tiles
  = [Tag (u "div") [(u "class", AttrList [u "Product_Card"; u "wide"])]
       [Tag (u "h2") [] [Text (u "Card")]]].
Proof.
  split.
  - intros U page. unfold find_product_containers.
    destruct (first_found container_patterns page) as [|x xs] eqn:E.
    + right. split; [|reflexivity]. apply first_found_nil. exact E.
    + left.
      assert (NE : first_found container_patterns page <> [])
        by (rewrite E; discriminate).
      destruct (first_found_some _ _ NE)
        as (before & p & after & Ep & Hb & Hp & Hr).
      exists before, p, after. rewrite <- E.
      repeat split; auto.
      intros n Hn. rewrite Hr in Hn. unfold find_all in Hn.
      apply filter_In in Hn. tauto.
  - vm_compute. reflexivity.
Qed.

(** ** Record extractor *)



Section RecordFacts.
Context {U : Unicode} {K : Markup} {L : UnicodeLaws U}.




Lemma float_truediv_truthy (x y : float) :
  float_truthy y = true ->
  float_truediv x y = inr (SFdiv binary64_prec binary64_emax x y).
Proof.
  unfold float_truthy, float_truediv. intros H.
  destruct (float_eqb y float_zero); [discriminate|reflexivity].
Qed.

(** [extract_product_data] never raises, reads the clock once, and
    returns [assemble] of the container and the reading *)
Lemma extract_product_data_run (container : node) (w : world) :
  extract_product_data container w
  = (inr (assemble container (clock w 0)), tick w).
Proof.
  unfold extract_product_data, assemble, field_text, bind, lift,
    utc_now_isoformat, ret.
  rewrite !extract_price_spec, extract_rating_spec.
  unfold final_discount, tick.
  destruct (extract_discount _) as [d|]; [reflexivity|].
  destruct (price_as_specified
              (safe_get_text
                 (find_element_by_patterns container mrp_patterns) []))
    as [m|]; [|reflexivity].
  destruct (price_as_specified
              (safe_get_text
                 (find_element_by_patterns container current_price_patterns) []))
    as [c|]; [|reflexivity].
  destruct (float_truthy m) eqn:Tm; [|reflexivity].
  cbn [andb].
  destruct (float_truthy c && float_ltb c m); [|reflexivity].
  rewrite (@float_truediv_truthy (float_sub m c) m Tm). reflexivity.
Qed.
End RecordFacts.

(** ** Listing loop *)



Lemma outcomes_length (extract : node -> M product) :
  forall containers w,
    length (fst (outcomes extract containers w)) = length containers.
Proof.
  induction containers as [|c rest IH]; intros w; simpl; [reflexivity|].
  destruct (extract c w) as [r w'].
  specialize (IH w'). destruct (outcomes extract rest w') as [rs w''].
  simpl in *. rewrite IH. reflexivity.
Qed.

Lemma outcomes_app (extract : node -> M product) :
  forall before after w,
    outcomes extract (before ++ after) w
    = (fst (outcomes extract before w)
       ++ fst (outcomes extract after (snd (outcomes extract before w))),
       snd (outcomes extract after (snd (outcomes extract before w)))).
Proof.
  induction before as [|c rest IH]; intros after w; simpl.
  - destruct (outcomes extract after w); reflexivity.
  - destruct (extract c w) as [r w'].
    rewrite (IH after w').
    destruct (outcomes extract rest w') as [rs w'']. reflexivity.
Qed.

Lemma scrape_loop_outcomes (extract : node -> M product) (url : str) :
  forall containers products w,
    scrape_loop extract url containers products w
    = (inr (products
            ++ flat_map (surfaced url) (fst (outcomes extract containers w))),
       snd (outcomes extract containers w)).
Proof.
  induction containers as [|c rest IH]; intros products w; simpl.
  - unfold ret. rewrite app_nil_r. reflexivity.
  - destruct (extract c w) as [[e|p] w'].
    + rewrite IH. destruct (outcomes extract rest w') as [rs w''].
      reflexivity.
    + destruct (str_truthy (product_name p)) eqn:T; rewrite IH;
        destruct (outcomes extract rest w') as [rs w'']; simpl; rewrite ?T;
        [rewrite <- app_assoc|]; reflexivity.
Qed.

Lemma surfaced_named (url : str) (rs : list (exn + product)) (p : product) :
  In p (flat_map (surfaced url) rs) -> str_truthy (product_name p) = true.
Proof.
  intros H. apply in_flat_map in H. destruct H as ([e|q] & _ & H); simpl in H.
  - destruct H.
  - destruct (str_truthy (product_name q)) eqn:T; [|destruct H].
    destruct H as [<-|[]]. exact T.
Qed.

Section ListingFacts.
Context {U : Unicode} {K : Markup} {L : UnicodeLaws U}.


Lemma surfaced_assemble (url : str) (container : node) (now : str) :
  map erase_timestamp (surfaced url (inr (assemble container now)))
  = named_record url container.
Proof.
  unfold named_record, surfaced, assemble. cbn [product_name].
  destruct (str_truthy _); reflexivity.
Qed.

Lemma outcomes_erased (url : str) :
  forall containers w,
    map erase_timestamp
      (flat_map (surfaced url)
         (fst (outcomes extract_product_data containers w)))
    = flat_map (named_record url) containers.
Proof.
  induction containers as [|c rest IH]; intros w; [reflexivity|].
  cbn [outcomes flat_map]. rewrite extract_product_data_run.
  specialize (IH (tick w)).
  destruct (outcomes extract_product_data rest (tick w)) as [rs w''].
  cbn [fst flat_map] in *. rewrite map_app, IH, surfaced_assemble.
  reflexivity.
Qed.

(** the listing, time stamps apart, is a function of the page and the
    source alone *)
Lemma extract_listing_erased (page : soup) (url : str) (w : world) :
  exists products,
    fst (extract_listing page url w) = inr products /\
    map erase_timestamp products
    = flat_map (named_record url) (find_product_containers page).
Proof.
  unfold extract_listing. rewrite scrape_loop_outcomes. cbn [fst app].
  eexists. split; [reflexivity|]. apply outcomes_erased.
Qed.
End ListingFacts.

(** C9 (validity filter and resilience): whatever the extraction method
    does, the listing loop returns normally, tries every container, and
    its result is, in order, the named records of the containers whose
    extraction succeeded; a container whose extraction raises or yields
    no name adds nothing and the containers after it are still
    processed; every record of the result has a name.  For the scraper's
    own extraction the result is, time stamps apart, the named records of
    the located containers in document order. *)
Theorem per_container_resilience :
  (forall (extract : node -> M product) (url : str)
          (containers : list node) (w : world),
     exists products w',
       scrape_loop extract url containers [] w = (inr products, w') /\
       products
       = flat_map (surfaced url) (fst (outcomes extract containers w)) /\
       length (fst (outcomes extract containers w)) = length containers /\
       (forall p, In p products -> str_truthy (product_name p) = true))
  /\
  (forall (extract : node -> M product) (url : str)
          (before : list node) (c : node) (after : list node) (w : world),
     match fst (extract c (snd (outcomes extract before w))) with
     | inl _ => True
     | inr p => str_truthy (product_name p) = false
     end ->
     fst (scrape_loop extract url (before ++ c :: after) [] w)
     = inr (flat_map (surfaced url) (fst (outcomes extract before w))
            ++ flat_map (surfaced url)
                 (fst (outcomes extract after
                         (snd (extract c (snd (outcomes extract before w))))))))
  /\
  (forall (U : Unicode) (K : Markup), UnicodeLaws U ->
   forall (page : soup) (url : str) (w : world),
     exists products,
       fst (extract_listing page url w) = inr products /\
       map erase_timestamp products
       = flat_map (named_record url) (find_product_containers page) /\
       (forall p, In p products -> str_truthy (product_name p) = true)).
Proof.
  split; [|split].
  - intros extract url containers w.
    rewrite scrape_loop_outcomes. cbn [app].
    eexists. eexists. split; [reflexivity|]. split; [reflexivity|].
    split; [apply outcomes_length|]. apply surfaced_named.
  - intros extract url before c after w H.
    rewrite scrape_loop_outcomes, outcomes_app. cbn [fst app outcomes].
    destruct (extract c (snd (outcomes extract before w))) as [r w1].
    cbn [fst snd] in *.
    destruct (outcomes extract after w1) as [rs w2]. cbn [fst].
    rewrite flat_map_app. cbn [flat_map].
    replace (surfaced url r) with (@nil product); [reflexivity|].
    unfold surfaced. destruct r as [e|p]; [reflexivity|].
    rewrite H. reflexivity.
  - intros U K L page url w.
    destruct (extract_listing_erased page url w) as (products & E & F).
    exists products. split; [exact E|]. split; [exact F|].
    unfold extract_listing in E. rewrite scrape_loop_outcomes in E.
    cbn [fst app] in E. injection E as <-. apply surfaced_named.
Qed.




Lemma per_container_resilience_witness :
  fst (scrape_loop (raising_on (u "table")) (u "https://shop.example/phones")
         ([titled "Phone A"] ++ Tag (u "table") [] [] :: [titled "Phone B"])
         [] steady_world)
  = inr (flat_map (surfaced (u "https://shop.example/phones"))
           (fst (outcomes (raising_on (u "table")) [titled "Phone A"]
                   steady_world))
         ++ flat_map (surfaced (u "https://shop.example/phones"))
              (fst (outcomes (raising_on (u "table")) [titled "Phone B"]
                      (snd (raising_on (u "table") (Tag (u "table") [] [])
                              (snd (outcomes (raising_on (u "table"))
                                      [titled "Phone A"] steady_world))))))).
Proof.
  apply (proj1 (proj2 per_container_resilience)).
  vm_compute. exact I.
Defined.

(** [scrape_listing_page] by what [fetch_page] comes to *)
Lemma scrape_listing_page_cases {U : Unicode} {K : Markup}
      (url : str) (w : world) :
  scrape_listing_page url w
  = match fst (fetch_page url w) with
    | inl e => (inl e, w)
    | inr None => (inr [], w)
    | inr (Some page) => extract_listing page url w
    end.
Proof.
  unfold scrape_listing_page, bind, fetch_page.
  destruct (web w url) as [page| |[status|]| |e]; reflexivity.
Qed.

Lemma fetch_page_same_reply (url : str) (w1 w2 : world) :
  web w1 url = web w2 url ->
  fst (fetch_page url w1) = fst (fetch_page url w2).
Proof.
  intros W. unfold fetch_page. rewrite W.
  destruct (web w2 url) as [page| |[status|]| |e]; reflexivity.
Qed.

(** C1 (determinism): two runs of the listing extraction on the same page
    and source, in whatever state of the clock, both return, and return
    the same records field for field once the time stamps are blanked;
    the same holds of [scrape_listing_page] when the network answers both
    fetches alike, unless [fetch_page] raises, and then both runs raise
    what it raises. *)
Theorem extraction_deterministic :
  forall (U : Unicode) (K : Markup), UnicodeLaws U ->
  forall (page : soup) (url : str) (w1 w2 : world),
    (exists products1 products2,
       fst (extract_listing page url w1) = inr products1 /\
       fst (extract_listing page url w2) = inr products2 /\
       map erase_timestamp products1 = map erase_timestamp products2)
    /\
    (web w1 url = web w2 url ->
     match fst (fetch_page url w1) with
     | inl e =>
         fst (scrape_listing_page url w1) = inl e /\
         fst (scrape_listing_page url w2) = inl e
     | inr _ =>
         exists products1 products2,
           fst (scrape_listing_page url w1) = inr products1 /\
           fst (scrape_listing_page url w2) = inr products2 /\
           map erase_timestamp products1 = map erase_timestamp products2
     end).
Proof.
  intros U K L page url w1 w2. split.
  - destruct (extract_listing_erased page url w1) as (p1 & E1 & F1).
    destruct (extract_listing_erased page url w2) as (p2 & E2 & F2).
    exists p1, p2. rewrite F1, F2. auto.
  - intros W. rewrite !scrape_listing_page_cases.
    rewrite <- (fetch_page_same_reply url w1 w2 W).
    destruct (fst (fetch_page url w1)) as [e|[fetched|]].
    + split; reflexivity.
    + destruct (extract_listing_erased fetched url w1) as (p1 & E1 & F1).
      destruct (extract_listing_erased fetched url w2) as (p2 & E2 & F2).
      exists p1, p2. rewrite F1, F2. auto.
    + exists [], []. auto.
Qed.


Lemma extraction_deterministic_witness :
  exists products1 products2,
    fst (scrape_listing_page (u "https://shop.example/phones") steady_world)
    = inr products1 /\
    fst (scrape_listing_page (u "https://shop.example/phones") ticking_world)
    = inr products2 /\
    map erase_timestamp products1 = map erase_timestamp products2.
Proof.
  apply (proj2 (@extraction_deterministic ascii_unicode plain_serialiser
                  ascii_laws card_and_tiles (u "https://shop.example/phones")
                  steady_world ticking_world)).
  reflexivity.
Defined.

(** ** Names *)

Section NameFacts.
Context {U : Unicode} {K : Markup} {L : UnicodeLaws U}.

(** a container whose name text is empty yields a nameless record and
    no row *)
Lemma nameless_dropped (container : node) (w : world) :
  field_text container name_patterns = [] ->
  (exists p, fst (extract_product_data container w) = inr p /\
             product_name p = None) /\
  (forall url rest products,
     scrape_loop extract_product_data url (container :: rest) products w
     = scrape_loop extract_product_data url rest products (tick w)).
Proof.
  intros E. split.
  - rewrite extract_product_data_run. eexists. split; [reflexivity|].
    unfold assemble. cbn [product_name]. rewrite E. reflexivity.
  - intros url rest products. cbn [scrape_loop].
    rewrite extract_product_data_run.
    unfold assemble. cbn [product_name]. rewrite E. reflexivity.
Qed.
End NameFacts.

(** C10 (empty name text): when a name pattern matches an element whose
    visible text is empty, the record's [product_name] is [None], not the
    empty string, and the listing loop passes over the container; this is
    what happens too when no name pattern matches. *)
Theorem empty_name_text_is_absent :
  forall (U : Unicode) (K : Markup), UnicodeLaws U ->
  forall (container : node) (w : world),
    (forall e,
       find_element_by_patterns container name_patterns = Some e ->
       get_text_strip e = [] ->
       (exists p, fst (extract_product_data container w) = inr p /\
                  product_name p = None) /\
       (forall url rest products,
          scrape_loop extract_product_data url (container :: rest) products w
          = scrape_loop extract_product_data url rest products (tick w)))
    /\
    (find_element_by_patterns container name_patterns = None ->
       (exists p, fst (extract_product_data container w) = inr p /\
                  product_name p = None) /\
       (forall url rest products,
          scrape_loop extract_product_data url (container :: rest) products w
          = scrape_loop extract_product_data url rest products (tick w))).
Proof.
  intros U K L container w. split.
  - intros e F T. apply nameless_dropped.
    unfold field_text. rewrite F. exact T.
  - intros F. apply nameless_dropped.
    unfold field_text. rewrite F. reflexivity.
Qed.


Lemma empty_name_text_is_absent_witness :
  (exists p, fst (extract_product_data blank_heading steady_world) = inr p /\
             product_name p = None) /\
  (forall url rest products,
     scrape_loop extract_product_data url (blank_heading :: rest) products
       steady_world
     = scrape_loop extract_product_data url rest products (tick steady_world)).
Proof.
  apply (proj1 (@empty_name_text_is_absent ascii_unicode plain_serialiser
                  ascii_laws blank_heading steady_world)
           (Tag (u "h2") [] [Text (u "   ")])).
  - vm_compute. reflexivity.
  - vm_compute. reflexivity.
Defined.

(** ** Derived discount *)



Lemma binary_round_aux_unsigned (q e : Z) (l : location) :
  unsigned (binary_round_aux binary64_prec binary64_emax false q e l).
Proof.
  unfold binary_round_aux.
  destruct (shr_fexp binary64_prec binary64_emax q e l) as [mrs e'].
  destruct (shr_fexp binary64_prec binary64_emax
              (round_nearest_even (shr_m mrs) (loc_of_shr_record mrs))
              e' loc_Exact) as [mrs' e''].
  destruct (shr_m mrs'); [reflexivity| |exact I].
  match goal with
  | |- context [if ?b then _ else _] => destruct b; reflexivity
  end.
Qed.

Lemma float_of_decimal_unsigned (m k : N) : unsigned (float_of_decimal m k).
Proof.
  unfold float_of_decimal. destruct m as [|p]; [reflexivity|].
  destruct (SFdiv_core_binary binary64_prec binary64_emax
              (Z.pos p) 0 (10 ^ Z.of_N k) 0) as [[q e] l].
  apply binary_round_aux_unsigned.
Qed.

Lemma less_than_unsigned_truthy (c m : float) :
  unsigned c -> float_ltb c m = true -> float_truthy m = true.
Proof.
  unfold float_ltb, SFltb, float_truthy, float_eqb, SFeqb, float_zero.
  destruct c as [s|s| |s mc ec]; destruct m as [s'|s'| |s' mm em];
    simpl; intros Hc H; subst; try discriminate; try reflexivity;
    destruct s'; try discriminate; reflexivity.
Qed.

Section DiscountFacts.
Context {U : Unicode} {K : Markup} {L : UnicodeLaws U}.

Lemma py_float_unsigned (s : str) (x : float) :
  py_float s = inr x -> unsigned x.
Proof.
  unfold py_float. destruct (span_digits s) as [ip r1].
  destruct r1 as [|c r2].
  - destruct ip; intros H; inversion H. apply float_of_decimal_unsigned.
  - destruct (c =? 46)%N; [|discriminate].
    destruct (span_digits r2) as [fp r3].
    destruct r3; destruct (ip ++ fp); intros H; inversion H.
    apply float_of_decimal_unsigned.
Qed.

Lemma price_unsigned (text : str) (x : float) :
  price_as_specified text = Some x -> unsigned x.
Proof.
  unfold price_as_specified.
  destruct (filter (fun c => negb (c =? 44)%N) (filter price_char text))
    as [|d ds]; [discriminate|].
  destruct (py_float (d :: ds)) as [e|y] eqn:F; [discriminate|].
  intros H. inversion H; subst y. exact (py_float_unsigned _ F).
Qed.

Lemma derived_discount_of_record (container : node) (w : world) :
  exists p,
    fst (extract_product_data container w) = inr p /\
    (forall d,
       extract_discount (Some (field_text container discount_patterns))
       = Some d ->
       discount p = Some d) /\
    (forall m c,
       extract_discount (Some (field_text container discount_patterns))
       = None ->
       mrp p = Some m -> current_price p = Some c ->
       float_truthy c = true -> float_ltb c m = true ->
       discount p = Some (format_1f (discount_percent m c) ++ u "%")).
Proof.
  rewrite extract_product_data_run. eexists. split; [reflexivity|].
  unfold assemble. cbn [discount mrp current_price]. split.
  - intros d E. rewrite E. reflexivity.
  - intros m c E Hm Hc Tc Lt. rewrite E, Hm, Hc.
    unfold final_discount.
    rewrite (@less_than_unsigned_truthy c m (price_unsigned _ Hc) Lt), Tc, Lt.
    reflexivity.
Qed.
End DiscountFacts.



(** What the guard of the derivation lets through: a discount that was
    extracted is kept as it is; when none was extracted, both prices are
    present, the current price is not zero and the list price is the
    greater, the discount is [(mrp - current_price) / mrp * 100] printed
    with one decimal and a percent sign.  List price 1000 and price 800
    give ["20.0%"]; with ["15%"] on the page the discount stays ["15%"]. *)
Lemma derived_discount_when_truthy :
  (forall (U : Unicode) (K : Markup), UnicodeLaws U ->
   forall (container : node) (w : world),
     exists p,
       fst (extract_product_data container w) = inr p /\
       (forall d,
          extract_discount (Some (field_text container discount_patterns))
          = Some d ->
          discount p = Some d) /\
       (forall m c,
          extract_discount (Some (field_text container discount_patterns))
          = None ->
          mrp p = Some m -> current_price p = Some c ->
          float_truthy c = true -> float_ltb c m = true ->
          discount p = Some (format_1f (discount_percent m c) ++ u "%")))
  /\
  (exists p,
     fst (extract_product_data (priced "1000" "800" []) steady_world) = inr p /\
     mrp p = Some (float_of_int 1000) /\
     current_price p = Some (float_of_int 800) /\
     discount p = Some (u "20.0%"))
  /\
  (exists p,
     fst (extract_product_data
            (priced "1000" "800"
               [Tag (u "span") [(u "class", AttrList [u "discount"])]
                  [Text (u "15% off")]])
            steady_world) = inr p /\
     discount p = Some (u "15%")).
Proof.
  split; [|split].
  - intros U K L container w. apply derived_discount_of_record.
  - eexists. split; [vm_compute; reflexivity|].
    repeat split; vm_compute; reflexivity.
  - eexists. split; [vm_compute; reflexivity|]. vm_compute. reflexivity.
Qed.

(** the rule as worded fails on a product offered for nothing *)
Lemma free_item_breaks_worded_rule :
  ~ discount_rule_as_worded (priced "1000" "0" []) steady_world.
Proof.
  intros H.
  specialize (H _ (float_of_int 1000) float_zero eq_refl).
  vm_compute in H.
  specialize (H eq_refl eq_refl eq_refl eq_refl). discriminate H.
Qed.

(** C2 (derived discount): on a card with list price 1000, price 0 and no
    discount on the page, no discount is extracted, both prices are
    present (1000.0 and 0.0) and the list price is the greater, so the rule
    asks for ["100.0%"]; the record has no discount, because the guard
    tests the truth value of the price and 0.0 is false. *)
Theorem free_item_discount_not_derived :
  exists p,
    fst (extract_product_data (priced "1000" "0" []) steady_world) = inr p /\
    extract_discount
      (Some (field_text (priced "1000" "0" []) discount_patterns)) = None /\
    mrp p = Some (float_of_int 1000) /\
    current_price p = Some float_zero /\
    float_ltb float_zero (float_of_int 1000) = true /\
    format_1f (discount_percent (float_of_int 1000) float_zero) ++ u "%"
    = u "100.0%" /\
    discount p = None.
Proof.
  eexists. split; [vm_compute; reflexivity|].
  repeat split; vm_compute; reflexivity.
Qed.

(** ** Discount normaliser *)

Section DiscountTextFacts.
Context {U : Unicode}.





Lemma lang_digits (w : str) :
  lang false (Plus (One ADigit)) w <-> digits w.
Proof.
  unfold digits. cbn [Plus lang class_match atom_match]. split.
  - intros (w1 & w2 & -> & (c & -> & Hc) & Hw). split; [discriminate|].
    constructor; assumption.
  - intros [NE Hw]. destruct w as [|c w]; [congruence|].
    inversion Hw; subst. exists [c], w. repeat split; auto.
    exists c. auto.
Qed.

Lemma lang_stop (w : str) :
  lang false (Class (One (AChar (chr ".")))) w <-> w = [46%N].
Proof.
  change (chr ".") with 46%N. cbn [lang class_match atom_match]. split.
  - intros (c & -> & Hc). apply N.eqb_eq in Hc. subst c. reflexivity.
  - intros ->. exists 46%N. split; reflexivity.
Qed.

Lemma lang_fraction (w : str) :
  lang false (Cat (Class (One (AChar (chr ".")))) (Plus (One ADigit))) w
  <-> exists fp, w = 46%N :: fp /\ digits fp.
Proof.
  cbn [lang]. fold (lang false (Class (One (AChar (chr "."))))).
  fold (lang false (Plus (One ADigit))). split.
  - intros (w1 & w2 & -> & H1 & H2).
    apply lang_stop in H1. apply lang_digits in H2. subst w1.
    exists w2. auto.
  - intros (fp & -> & H). exists [46%N], fp.
    split; [reflexivity|]. split; [apply lang_stop; reflexivity|].
    apply lang_digits. exact H.
Qed.

Lemma lang_percent_group (n : str) :
  lang false percent_group n <-> number n.
Proof.
  unfold percent_group, Opt, number.
  change (lang false (Cat ?a ?b) n)
    with (exists w1 w2, n = w1 ++ w2 /\ lang false a w1 /\ lang false b w2).
  split.
  - intros (w1 & w2 & -> & H1 & H2). apply lang_digits in H1.
    change (lang false (Alt ?a Eps) w2)
      with (lang false a w2 \/ w2 = []) in H2.
    destruct H2 as [H2| ->].
    + apply lang_fraction in H2. destruct H2 as (fp & -> & H2).
      right. exists w1, fp. auto.
    + left. rewrite app_nil_r. exact H1.
  - intros [H|(ip & fp & -> & Hi & Hf)].
    + exists n, []. rewrite app_nil_r. split; [reflexivity|].
      split; [apply lang_digits; exact H|]. right. reflexivity.
    + exists ip, (46%N :: fp). split; [reflexivity|].
      split; [apply lang_digits; exact Hi|]. left.
      apply lang_fraction. exists fp. auto.
Qed.

Lemma lang_percent_tail (t : str) :
  lang false percent_tail t <-> exists ws, t = ws ++ [37%N] /\ spaces ws.
Proof.
  unfold percent_tail, spaces. change (chr "%") with 37%N.
  cbn [lang class_match atom_match]. split.
  - intros (w1 & w2 & -> & H1 & (c & -> & Hc)).
    apply N.eqb_eq in Hc. subst c. exists w1. auto.
  - intros (ws & -> & H). exists ws, [37%N]. repeat split; auto.
    exists 37%N. split; reflexivity.
Qed.

Lemma percentage_at_occurs (text pre n : str) :
  percentage_at text pre n
  <-> occurs_at false percent_group percent_tail text pre n.
Proof.
  unfold percentage_at, occurs_at. split.
  - intros (ws & post & -> & Hn & Hw). exists (ws ++ [37%N]), post.
    rewrite <- app_assoc. split; [reflexivity|].
    split; [apply lang_percent_group; exact Hn|].
    apply lang_percent_tail. exists ws. auto.
  - intros (b & c & -> & Hn & Hb).
    apply lang_percent_tail in Hb. destruct Hb as (ws & -> & Hw).
    exists ws, c. rewrite <- app_assoc. split; [reflexivity|].
    split; [apply lang_percent_group; exact Hn|exact Hw].
Qed.
End DiscountTextFacts.

Lemma app_same_length (A : Type) :
  forall (a b x y : list A),
    a ++ x = b ++ y -> length a = length b -> a = b /\ x = y.
Proof.
  induction a as [|h a IH]; intros [|h' b] x y E Hl; simpl in *;
    try discriminate.
  - auto.
  - inversion E; subst. destruct (IH b x y H1) as [-> ->]; [lia|]. auto.
Qed.

Section PercentFacts.
Context {U : Unicode} {L : UnicodeLaws U}.


Lemma digit_run_unique :
  forall a b x y,
    Forall (fun c => is_digit c = true) a ->
    Forall (fun c => is_digit c = true) b ->
    a ++ x = b ++ y -> no_digit_ahead x -> no_digit_ahead y ->
    a = b /\ x = y.
Proof.
  induction a as [|c a IH]; intros [|c' b] x y Ha Hb E Hx Hy; simpl in *.
  - auto.
  - subst x. simpl in Hx. inversion Hb; subst. congruence.
  - subst y. simpl in Hy. inversion Ha; subst. congruence.
  - inversion E; subst. inversion Ha; subst. inversion Hb; subst.
    destruct (IH b x y H3 H5 H1 Hx Hy) as [-> ->]. auto.
Qed.


Lemma percent_ahead_head (r : str) :
  percent_ahead r ->
  exists c r', r = c :: r' /\ is_digit c = false /\ c <> 46%N.
Proof.
  intros (ws & post & -> & Hw). destruct ws as [|c ws].
  - exists 37%N, post. split; [reflexivity|].
    destruct percent_plain as [D _]. unfold is_digit. rewrite D.
    split; [reflexivity|discriminate].
  - inversion Hw; subst. exists c, (ws ++ 37%N :: post).
    split; [reflexivity|]. unfold is_digit.
    rewrite (space_not_digit c H1). split; [reflexivity|].
    intros ->. destruct full_stop_plain as [_ S]. congruence.
Qed.

Lemma stop_not_digit : is_digit 46%N = false.
Proof.
  unfold is_digit. destruct full_stop_plain as [D _]. rewrite D. reflexivity.
Qed.

(** at a given place at most one number is followed by white space and
    a percent sign *)
Lemma number_unique (n a r1 r2 : str) :
  number n -> number a -> n ++ r1 = a ++ r2 ->
  percent_ahead r1 -> percent_ahead r2 -> n = a.
Proof.
  intros Hn Ha E H1 H2.
  destruct (percent_ahead_head H1) as (c1 & t1 & -> & D1 & S1).
  destruct (percent_ahead_head H2) as (c2 & t2 & -> & D2 & S2).
  destruct Hn as [[_ Hn]|(ip & fp & -> & [_ Hi] & [_ Hf])];
    destruct Ha as [[_ Ha]|(ip' & fp' & -> & [_ Hi'] & [_ Hf'])].
  - apply (@digit_run_unique _ _ _ _ Hn Ha E); assumption.
  - rewrite <- app_assoc in E. simpl in E.
    destruct (@digit_run_unique _ _ _ _ Hn Hi' E D1 stop_not_digit) as [_ F].
    inversion F. congruence.
  - rewrite <- app_assoc in E. simpl in E.
    destruct (@digit_run_unique _ _ _ _ Hi Ha E stop_not_digit D2) as [_ F].
    inversion F. congruence.
  - rewrite <- !app_assoc in E. simpl in E.
    destruct (@digit_run_unique _ _ _ _ Hi Hi' E stop_not_digit stop_not_digit)
      as [-> F].
    inversion F as [G].
    destruct (@digit_run_unique _ _ _ _ Hf Hf' G D1 D2) as [-> _]. reflexivity.
Qed.

(** [re.search] captures the number of the leftmost percentage *)
Lemma search_percent_leftmost (text pre n : str) :
  percentage_at text pre n ->
  (forall pre' n', percentage_at text pre' n' -> length pre <= length pre') ->
  exists pre0 t rest,
    search false percent_group percent_tail text = Some (pre0, (n, t, rest)).
Proof.
  intros Hp Hleft.
  destruct (search false percent_group percent_tail text)
    as [[pre0 [[a b] c]]|] eqn:S.
  - exists pre0, b, c. repeat f_equal.
    destruct (search_sound _ _ _ _ S) as (E & La & Lb & Hl).
    assert (Ha : percentage_at text pre0 a)
      by (apply percentage_at_occurs; exists b, c; auto).
    pose proof (Hleft _ _ Ha) as G1.
    pose proof (Hl _ _ (proj1 (percentage_at_occurs _ _ _) Hp)) as G2.
    destruct Hp as (ws & post & E' & Hn & Hw).
    rewrite E' in E.
    destruct (app_same_length _ _ _ _ E) as [_ F]; [lia|].
    apply lang_percent_tail in Lb. destruct Lb as (ws' & -> & Hw').
    rewrite <- app_assoc in F. simpl in F.
    symmetry. apply lang_percent_group in La.
    apply (number_unique Hn La F).
    + exists ws, post. auto.
    + exists ws', c. auto.
  - exfalso.
    apply (@search_none _ false percent_group percent_tail text S pre n).
    apply percentage_at_occurs. exact Hp.
Qed.

Lemma search_percent_none (text : str) :
  (forall pre n, ~ percentage_at text pre n) ->
  search false percent_group percent_tail text = None.
Proof.
  intros H.
  destruct (search false percent_group percent_tail text)
    as [[pre0 [[a b] c]]|] eqn:S; [|reflexivity].
  exfalso. destruct (search_sound _ _ _ _ S) as (E & La & Lb & _).
  apply (H pre0 a). apply percentage_at_occurs. exists b, c. auto.
Qed.
End PercentFacts.

Section AmountFacts.
Context {U : Unicode}.









Lemma take_drop_while (p : codepoint -> bool) (s : str) :
  take_while p s ++ drop_while p s = s.
Proof.
  induction s as [|c s IH]; [reflexivity|]. simpl.
  destruct (p c); [simpl; rewrite IH|]; reflexivity.
Qed.

Lemma decimals_split (r : str) : decimals r ++ after_decimals r = r.
Proof.
  unfold decimals, after_decimals. destruct r as [|p [|d r']]; try reflexivity.
  destruct ((p =? 46)%N && is_digit d); [|reflexivity].
  simpl. rewrite take_drop_while. reflexivity.
Qed.

Lemma amount_split (s : str) :
  s = amount_here s ++ after_decimals (drop_while amount_char s).
Proof.
  unfold amount_here. rewrite <- app_assoc, decimals_split, take_drop_while.
  reflexivity.
Qed.

Lemma star_loop_ext (A : Type) (p q : codepoint -> bool) (k : str -> option A) :
  (forall c, p c = q c) -> forall s, star_loop p s k = star_loop q s k.
Proof.
  intros E. induction s as [|c s IH]; [reflexivity|].
  simpl. rewrite E, IH. reflexivity.
Qed.

(** when the rest of the pattern accepts what follows the longest run,
    the longest run is what the repetition takes *)
Lemma star_loop_longest (A : Type) (p : codepoint -> bool)
      (k : str -> option A) :
  forall s x, k (drop_while p s) = Some x -> star_loop p s k = Some x.
Proof.
  induction s as [|c s IH]; intros x H; simpl in *; [exact H|].
  destruct (p c); [|exact H]. rewrite (IH x H). reflexivity.
Qed.

Lemma amount_class (c : codepoint) :
  class_match false (OneOf [ADigit; AChar (chr ",")]) c = amount_char c.
Proof.
  unfold amount_char. change (chr ",") with 44%N.
  unfold class_match, existsb, atom_match.
  rewrite orb_false_r, (N.eqb_sym 44 c). reflexivity.
Qed.

Lemma digit_class (c : codepoint) :
  class_match false (One ADigit) c = is_digit c.
Proof. reflexivity. Qed.

(** the optional decimals of the amount pattern, followed by [k] *)
Lemma rmatch_decimals (A : Type) (F : str -> A) (r : str) :
  rmatch false
    (Opt (Cat (Class (One (AChar (chr ".")))) (Plus (One ADigit))))
    r (fun s1 => Some (F s1))
  = Some (F (after_decimals r)).
Proof.
  unfold Opt, Plus, after_decimals. change (chr ".") with 46%N.
  cbn [rmatch class_match atom_match].
  destruct r as [|p [|d r']].
  - reflexivity.
  - destruct (46 =? p)%N; reflexivity.
  - rewrite (N.eqb_sym p 46). destruct (46 =? p)%N; [|reflexivity].
    cbn [andb]. destruct (is_digit d); [|reflexivity].
    rewrite (@star_loop_ext _ _ is_digit _ digit_class).
    rewrite (@star_loop_longest _ is_digit (fun s1 => Some (F s1)) r'
               (F (drop_while is_digit r')) eq_refl).
    reflexivity.
Qed.

Lemma match_here_amount_nil : match_here false amount_re Eps [] = None.
Proof. reflexivity. Qed.

Lemma match_here_amount (c : codepoint) (s' : str) :
  match_here false amount_re Eps (c :: s')
  = if amount_char c
    then Some (amount_here (c :: s'), [],
               after_decimals (drop_while amount_char (c :: s')))
    else None.
Proof.
  unfold match_here, amount_re. unfold Plus at 1.
  cbn [rmatch]. rewrite amount_class.
  destruct (amount_char c) eqn:Hc; [|reflexivity].
  rewrite (@star_loop_ext _ _ amount_char _ amount_class).
  erewrite star_loop_longest; [reflexivity|].
  rewrite (rmatch_decimals
             (fun s1 => (firstn (length (c :: s') - length s1) (c :: s'),
                         firstn (length s1 - length s1) s1, s1))).
  f_equal.
  assert (D : drop_while amount_char (c :: s') = drop_while amount_char s')
    by (simpl; rewrite Hc; reflexivity).
  rewrite D.
  pose proof (amount_split (c :: s')) as E. rewrite D in E.
  rewrite Nat.sub_diag. cbn [firstn].
  rewrite E at 1 2. rewrite firstn_length_diff. reflexivity.
Qed.

Lemma search_amount (s : str) :
  match search false amount_re Eps s with
  | Some (_, (matched, _, _)) => Some matched
  | None => None
  end = first_amount s.
Proof.
  induction s as [|c s IH]; [reflexivity|].
  cbn [search first_amount]. rewrite match_here_amount.
  destruct (amount_char c); [reflexivity|].
  destruct (search false amount_re Eps s) as [[pre [[g t] r]]|]; exact IH.
Qed.

Lemma first_amount_none (s : str) :
  Forall (fun c => amount_char c = false) s -> first_amount s = None.
Proof.
  induction 1 as [|c s Hc Hs IH]; [reflexivity|].
  simpl. rewrite Hc. exact IH.
Qed.
End AmountFacts.

Section DiscountContract.
Context {U : Unicode} {L : UnicodeLaws U}.


Lemma number_has_digit (n : str) :
  number n -> exists c, In c n /\ is_digit c = true.
Proof.
  intros [[NE H]|(ip & fp & -> & [NE H] & _)].
  - destruct n as [|c n]; [exfalso; apply NE; reflexivity|].
    inversion H; subst.
    exists c. split; [left; reflexivity|assumption].
  - destruct ip as [|c ip]; [exfalso; apply NE; reflexivity|].
    inversion H; subst.
    exists c. split; [left; reflexivity|assumption].
Qed.

Lemma plain_text_no_percentage (text : str) :
  Forall (fun c => amount_char c = false) text ->
  forall pre n, ~ percentage_at text pre n.
Proof.
  intros H pre n (ws & post & -> & Hn & _).
  destruct (number_has_digit Hn) as (c & Hin & Hc).
  rewrite Forall_forall in H.
  assert (F : amount_char c = false).
  { apply H. apply in_or_app. right. apply in_or_app. left. exact Hin. }
  unfold amount_char in F. rewrite Hc in F. discriminate.
Qed.

Lemma percentage_text_not_empty (pre n : str) :
  ~ percentage_at [] pre n.
Proof.
  intros (ws & post & E & _ & _).
  symmetry in E. apply app_eq_nil in E. destruct E as [_ E].
  apply app_eq_nil in E. destruct E as [_ E].
  apply app_eq_nil in E. destruct E as [_ E]. discriminate.
Qed.

Lemma extract_discount_amount (c : codepoint) (text : str) :
  search false percent_group percent_tail (c :: text) = None ->
  extract_discount (Some (c :: text))
  = match first_amount (c :: text) with
    | Some a => Some (u "₹" ++ without_commas a)
    | None => or_none (strip (c :: text))
    end.
Proof.
  intros S. unfold extract_discount. rewrite S.
  rewrite <- search_amount.
  destruct (search false amount_re Eps (c :: text)) as [[pre [[g t] r]]|].
  - rewrite replace_char_delete. reflexivity.
  - unfold or_none. destruct (strip (c :: text)); reflexivity.
Qed.

Lemma extract_discount_meets_contract (text : str) (out : option str) :
  discount_contract text out -> extract_discount (Some text) = out.
Proof.
  intros [pre n Hp Hleft|a Hno Ha _|Hplain].
  - destruct (search_percent_leftmost Hp Hleft) as (pre0 & t & rest & S).
    destruct text as [|c text];
      [exfalso; exact (percentage_text_not_empty Hp)|].
    unfold extract_discount. rewrite S. reflexivity.
  - destruct text as [|c text]; [discriminate|].
    pose proof (@extract_discount_amount c text (search_percent_none Hno))
      as E.
    rewrite Ha in E. exact E.
  - destruct text as [|c text]; [reflexivity|].
    pose proof (@extract_discount_amount c text
                  (search_percent_none (plain_text_no_percentage Hplain)))
      as E.
    rewrite (first_amount_none Hplain) in E. exact E.
Qed.

Lemma extract_discount_percent_wins (text : str) :
  (exists pre n, percentage_at text pre n) ->
  exists pre n,
    percentage_at text pre n /\
    extract_discount (Some text) = Some (n ++ u "%").
Proof.
  intros (pre & n & Hp).
  destruct (search false percent_group percent_tail text)
    as [[pre0 [[a b] c]]|] eqn:S.
  - destruct (search_sound _ _ _ _ S) as (E & La & Lb & _).
    exists pre0, a. split.
    + apply percentage_at_occurs. exists b, c. auto.
    + destruct text as [|x text];
        [exfalso; exact (percentage_text_not_empty Hp)|].
      unfold extract_discount. rewrite S. reflexivity.
  - exfalso.
    apply (@search_none _ false percent_group percent_tail text S pre n).
    apply percentage_at_occurs. exact Hp.
Qed.

(** what [re.search] finds is the leftmost percentage *)
Lemma search_finds_leftmost (text pre n t rest : str) :
  search false percent_group percent_tail text = Some (pre, (n, t, rest)) ->
  percentage_at text pre n /\
  forall pre' n', percentage_at text pre' n' -> length pre <= length pre'.
Proof.
  intros S. destruct (search_sound _ _ _ _ S) as (E & La & Lb & Hl).
  split.
  - apply percentage_at_occurs. exists t, rest. auto.
  - intros pre' n' H. apply (Hl pre' n').
    apply percentage_at_occurs. exact H.
Qed.
End DiscountContract.



Lemma immediate_percentage_occurs {U : Unicode} (text pre n : str) :
  immediate_percentage_at text pre n ->
  occurs_at false percent_group (Class (One (AChar (chr "%")))) text pre n.
Proof.
  intros (post & -> & Hn). exists [37%N], post.
  split; [reflexivity|]. split; [apply lang_percent_group; exact Hn|].
  exists 37%N. split; reflexivity.
Qed.

(** a percentage written with a space: no number is immediately followed
    by the sign, an amount is there, and yet the result is the percentage *)
Lemma spaced_percentage_is_not_an_amount :
  ~ discount_as_worded (u "20 %") (extract_discount (Some (u "20 %"))).
Proof.
  intros (_ & H & _).
  assert (N : forall pre n, ~ immediate_percentage_at (u "20 %") pre n).
  { intros pre n Hi. apply immediate_percentage_occurs in Hi.
    refine (@search_none _ false percent_group
              (Class (One (AChar (chr "%")))) (u "20 %") _ pre n Hi).
    vm_compute. reflexivity. }
  specialize (H N (u "20") eq_refl). vm_compute in H. discriminate H.
Qed.

(** C4 (discount normaliser), amended: a number followed by optional
    white space and a percent sign gives that number and the sign, the
    leftmost such number when there are several, and a percentage wins
    over an amount; with no percentage, an amount that holds a digit gives
    the rupee sign and the amount without commas; text with neither digit
    nor comma gives the trimmed text, or no value when that is empty;
    absent input gives no value.  ["Save 20% off ₹2,000"] gives ["20%"]. *)
Theorem discount_normalizer_contract :
  (forall (U : Unicode), UnicodeLaws U ->
   forall text out,
     discount_contract text out -> extract_discount (Some text) = out)
  /\
  (forall (U : Unicode), UnicodeLaws U ->
   forall text,
     (exists pre n, percentage_at text pre n) ->
     exists pre n,
       percentage_at text pre n /\
       extract_discount (Some text) = Some (n ++ u "%"))
  /\ (forall (U : Unicode), extract_discount None = None)
  /\ extract_discount (Some (u "Save 20% off ₹2,000")) = Some (u "20%")
  /\ extract_discount (Some (u "20 %")) = Some (u "20%")
  /\ extract_discount (Some (u "Save ₹2,000")) = Some (u "₹2000").
Proof.
  split; [|split; [|split; [|split; [|split]]]].
  - intros U L text out. apply extract_discount_meets_contract.
  - intros U L text. apply extract_discount_percent_wins.
  - reflexivity.
  - vm_compute. reflexivity.
  - vm_compute. reflexivity.
  - vm_compute. reflexivity.
Qed.

Lemma discount_normalizer_contract_witness :
  extract_discount (Some (u "Save 20% off ₹2,000")) = Some (u "20" ++ u "%").
Proof.
  apply (proj1 discount_normalizer_contract ascii_unicode ascii_laws).
  destruct (@search_finds_leftmost ascii_unicode
              (u "Save 20% off ₹2,000") (u "Save ") (u "20") (u "%")
              (u " off ₹2,000") eq_refl) as [Hp Hleft].
  exact (DiscountPercent Hp Hleft).
Defined.

(** * Further properties of the code *)

(** ** Fallback patterns *)

(** X1: patterns added after a list never change what the list finds;
    they are consulted only when the list finds nothing. *)
Theorem find_element_by_patterns_append :
  forall (U : Unicode) (container : node) (first later : list pattern),
    find_element_by_patterns container (first ++ later)
    = match find_element_by_patterns container first with
      | Some e => Some e
      | None => find_element_by_patterns container later
      end.
Proof.
  intros U container first later.
  induction first as [|p first IH]; simpl; [reflexivity|].
  destruct (find p container); [reflexivity|exact IH].
Qed.

(** ** Nested containers *)

Lemma node_induction (P : node -> Prop) :
  (forall s, P (Text s)) ->
  (forall name attrs cs, Forall P cs -> P (Tag name attrs cs)) ->
  forall n, P n.
Proof.
  intros HT HG.
  fix IH 1. intros [s|name attrs cs]; [apply HT|].
  apply HG. induction cs as [|c cs IHcs]; constructor; [apply IH|exact IHcs].
Qed.

Lemma descendants_transitive :
  forall n c d,
    In c (descendants n) -> In d (descendants c) -> In d (descendants n).
Proof.
  intros n. induction n as [s|name attrs cs IH] using node_induction;
    intros c d Hc Hd; simpl in *; [destruct Hc|].
  apply in_flat_map in Hc. destruct Hc as (x & Hx & Hc).
  apply in_flat_map. exists x. split; [exact Hx|].
  destruct Hc as [<-|Hc]; [right; exact Hd|].
  right. rewrite Forall_forall in IH. exact (IH x Hx c d Hc Hd).
Qed.

(** X2: the locator also returns the containers that lie inside a
    returned container and match the same pattern, so a card nested in a
    card is a container of its own. *)
Theorem nested_containers_are_returned :
  forall (U : Unicode) (page : soup),
    find_product_containers page = [] \/
    exists p,
      In p container_patterns /\
      find_product_containers page = find_all p page /\
      forall c d,
        In c (find_product_containers page) ->
        In d (descendants c) -> node_matches p d = true ->
        In d (find_product_containers page).
Proof.
  intros U page. unfold find_product_containers.
  destruct (first_found container_patterns page) as [|x xs] eqn:E;
    [left; reflexivity|right].
  assert (NE : first_found container_patterns page <> [])
    by (rewrite E; discriminate).
  destruct (first_found_some _ _ NE) as (before & p & after & Ep & _ & _ & Hr).
  exists p. rewrite <- E. split; [|split; [exact Hr|]].
  - rewrite Ep. apply in_or_app. right. left. reflexivity.
  - intros c d Hc Hd Hm. rewrite Hr in *. unfold find_all in *.
    apply filter_In in Hc. destruct Hc as [Hc _].
    apply filter_In. split; [|exact Hm].
    exact (descendants_transitive _ _ _ Hc Hd).
Qed.

(** ** Invariants of a record *)

Lemma unsigned_not_negative (x : float) :
  unsigned x -> float_ltb x float_zero = false.
Proof.
  destruct x as [s|s| |s m e]; simpl; intros H; subst; reflexivity.
Qed.

Section RecordInvariants.
Context {U : Unicode} {K : Markup} {L : UnicodeLaws U}.

Lemma rating_in_range (text : str) (r : float) :
  rating_as_specified text = Some r ->
  float_leb (float_of_int 0) r = true /\ float_leb r (float_of_int 5) = true.
Proof.
  intros H. pose proof (rate_first_numeral text) as E. rewrite H in E.
  unfold rate in E. destruct (first_numeral_text text) as [g|]; [|discriminate].
  destruct (py_float g) as [e|x]; [discriminate|].
  destruct (float_leb (float_of_int 0) x && float_leb x (float_of_int 5))
    eqn:C; [|discriminate].
  injection E as <-. apply andb_true_iff in C. exact C.
Qed.

Lemma record_invariants (container : node) (w : world) :
  exists p,
    extract_product_data container w = (inr p, tick w) /\
    scrape_timestamp_utc p = clock w 0 /\
    source_url p = None /\
    product_name p <> Some [] /\
    (forall x, current_price p = Some x \/ mrp p = Some x ->
               float_ltb x float_zero = false) /\
    (forall r, rating p = Some r ->
               float_leb (float_of_int 0) r = true /\
               float_leb r (float_of_int 5) = true) /\
    In (availability p) [u "In Stock"; u "Out of Stock"; u "Unknown"] /\
    (find_element_by_patterns container availability_patterns = None ->
     availability p = u "Unknown").
Proof.
  rewrite extract_product_data_run. eexists. split; [reflexivity|].
  unfold assemble.
  cbn [scrape_timestamp_utc source_url product_name current_price mrp rating
       availability].
  split; [reflexivity|]. split; [reflexivity|]. split; [|split; [|split; [|split]]].
  - unfold or_none. destruct (field_text container name_patterns); discriminate.
  - intros x [H|H]; apply unsigned_not_negative;
      exact (price_unsigned _ H).
  - intros r H. exact (rating_in_range _ H).
  - rewrite determine_availability_spec.
    destruct (classify _); simpl; auto.
  - intros E. unfold field_text. rewrite E. reflexivity.
Qed.
End RecordInvariants.

(** X3: every record [extract_product_data] returns has a name that is
    absent or non-empty, prices that are not negative, a rating that is
    absent or within 0 and 5, one of the three availability labels, the
    clock's reading as time stamp and no source yet; without an
    availability element the availability is ["Unknown"]. *)
Theorem extracted_record_invariants :
  forall (U : Unicode) (K : Markup), UnicodeLaws U ->
  forall (container : node) (w : world),
    exists p,
      extract_product_data container w = (inr p, tick w) /\
      scrape_timestamp_utc p = clock w 0 /\
      source_url p = None /\
      product_name p <> Some [] /\
      (forall x, current_price p = Some x \/ mrp p = Some x ->
                 float_ltb x float_zero = false) /\
      (forall r, rating p = Some r ->
                 float_leb (float_of_int 0) r = true /\
                 float_leb r (float_of_int 5) = true) /\
      In (availability p) [u "In Stock"; u "Out of Stock"; u "Unknown"] /\
      (find_element_by_patterns container availability_patterns = None ->
       availability p = u "Unknown").
Proof.
  intros U K L container w. apply record_invariants.
Qed.

Lemma extracted_record_invariants_witness :
  exists p,
    extract_product_data (priced "15,000" "-12,999" []) steady_world
    = (inr p, tick steady_world) /\
    current_price p = Some (float_of_int 12999) /\
    float_ltb (float_of_int 12999) float_zero = false /\
    availability p = u "Unknown".
Proof.
  destruct (@extracted_record_invariants ascii_unicode plain_serialiser
              ascii_laws (priced "15,000" "-12,999" []) steady_world)
    as (p & E & _ & _ & _ & Hp & _ & _ & Ha).
  exists p. split; [exact E|].
  assert (C : current_price p = Some (float_of_int 12999)).
  { vm_compute in E. injection E as <-. vm_compute. reflexivity. }
  split; [exact C|]. split.
  - apply Hp. left. exact C.
  - apply Ha. vm_compute. reflexivity.
Defined.

(** ** Time stamps and rows of a listing *)


Lemma iter_tick_shift (w : world) :
  forall i, Nat.iter i tick (tick w) = Nat.iter (S i) tick w.
Proof.
  induction i as [|i IH]; [reflexivity|]. simpl. rewrite IH. reflexivity.
Qed.

Section TimeStamps.
Context {U : Unicode} {K : Markup} {L : UnicodeLaws U}.

Lemma outcomes_clock :
  forall containers w,
    snd (outcomes extract_product_data containers w)
    = Nat.iter (length containers) tick w.
Proof.
  induction containers as [|c rest IH]; intros w; [reflexivity|].
  cbn [outcomes]. rewrite extract_product_data_run.
  specialize (IH (tick w)).
  destruct (outcomes extract_product_data rest (tick w)) as [rs w''].
  cbn [snd length] in *. rewrite IH. apply iter_tick_shift.
Qed.


End TimeStamps.



Lemma surfaced_source (url : str) (rs : list (exn + product)) (p : product) :
  In p (flat_map (surfaced url) rs) -> source_url p = Some url.
Proof.
  intros H. apply in_flat_map in H. destruct H as ([e|q] & _ & H); simpl in H.
  - destruct H.
  - destruct (str_truthy (product_name q)); [|destruct H].
    destruct H as [<-|[]]. reflexivity.
Qed.

Lemma surfaced_count (url : str) (rs : list (exn + product)) :
  length (flat_map (surfaced url) rs) <= length rs.
Proof.
  induction rs as [|r rs IH]; simpl; [lia|].
  rewrite length_app. destruct r as [e|q]; simpl; [lia|].
  destruct (str_truthy (product_name q)); simpl; lia.
Qed.

Lemma listing_sources {U : Unicode} {K : Markup}
      (url : str) (w w' : world) (products : list product) :
  scrape_listing_page url w = (inr products, w') ->
  forall p, In p products -> source_url p = Some url.
Proof.
  rewrite scrape_listing_page_cases.
  destruct (fst (fetch_page url w)) as [e|[page|]].
  - discriminate.
  - unfold extract_listing. rewrite scrape_loop_outcomes. cbn [app].
    intros E. injection E as <- _. apply surfaced_source.
  - intros E. injection E as <- _. intros p [].
Qed.

(** X5: [scrape_listing_page] raises exactly when [fetch_page] does, the
    same exception and with nothing scraped; when [fetch_page] gives
    [None] the result is the empty list and the clock is not read; when it
    gives a page the method returns, after one clock reading per located
    container, at most as many rows as containers, and every row carries
    the requested URL as its source. *)
Theorem listing_rows_bounded_and_sourced :
  forall (U : Unicode) (K : Markup), UnicodeLaws U ->
  forall (url : str) (w : world),
    (forall e, fst (fetch_page url w) = inl e ->
               scrape_listing_page url w = (inl e, w)) /\
    (fst (fetch_page url w) = inr None ->
     scrape_listing_page url w = (inr [], w)) /\
    (forall page,
       fst (fetch_page url w) = inr (Some page) ->
       exists products,
         scrape_listing_page url w
         = (inr products,
            Nat.iter (length (find_product_containers page)) tick w) /\
         (forall p, In p products -> source_url p = Some url) /\
         length products <= length (find_product_containers page)).
Proof.
  intros U K L url w. rewrite scrape_listing_page_cases.
  split; [|split].
  - intros e ->. reflexivity.
  - intros ->. reflexivity.
  - intros page ->. unfold extract_listing.
    rewrite scrape_loop_outcomes, outcomes_clock. cbn [app].
    eexists. split; [reflexivity|]. split; [apply surfaced_source|].
    rewrite <- (outcomes_length extract_product_data
                  (find_product_containers page) w).
    apply surfaced_count.
Qed.

Lemma listing_rows_bounded_and_sourced_witness :
  exists products,
    scrape_listing_page (u "https://shop.example/phones") steady_world
    = (inr products,
       Nat.iter (length (find_product_containers card_and_tiles)) tick
         steady_world) /\
    (forall p, In p products ->
               source_url p = Some (u "https://shop.example/phones")) /\
    length products <= length (find_product_containers card_and_tiles).
Proof.
  apply (proj2 (proj2
           (@listing_rows_bounded_and_sourced ascii_unicode plain_serialiser
              ascii_laws (u "https://shop.example/phones") steady_world))).
  reflexivity.
Defined.

(** rewriting with an equation once [str] and [codepoint] are unfolded on
    both sides *)
Ltac rewrite_plain E :=
  let C := fresh "C" in
  pose proof E as C; unfold str, codepoint in *; rewrite C; clear C.

(** ** More on prices *)

Section PriceEdges.
Context {U : Unicode} {L : UnicodeLaws U}.

Lemma full_stops_filter (f : codepoint -> bool) (s : str) :
  f 46%N = true -> full_stops (filter f s) = full_stops s.
Proof.
  intros H. unfold full_stops. induction s as [|c s IH]; [reflexivity|].
  simpl. destruct (f c) eqn:F; simpl.
  - destruct (N.eq_dec c 46); rewrite IH; reflexivity.
  - destruct (N.eq_dec c 46) as [->|_]; [congruence|exact IH].
Qed.

Lemma span_digits_rest_stops :
  forall s ds r, span_digits s = (ds, r) -> full_stops r = full_stops s.
Proof.
  induction s as [|c s IH]; intros ds r H; simpl in H.
  - injection H as <- <-. reflexivity.
  - destruct (decimal_digit c) as [d|] eqn:D.
    + destruct (span_digits s) as [ds' r'] eqn:S. injection H as <- <-.
      rewrite (IH _ _ eq_refl). unfold full_stops. simpl.
      destruct (N.eq_dec c 46) as [->|_]; [|reflexivity].
      destruct full_stop_plain as [E _]. congruence.
    + injection H as <- <-. reflexivity.
Qed.

Lemma py_float_two_stops (s : str) :
  2 <= full_stops s -> py_float s = inl ValueError.
Proof.
  intros H. unfold py_float.
  destruct (span_digits s) as [ip r1] eqn:S1.
  rewrite <- (span_digits_rest_stops _ S1) in H.
  destruct r1 as [|c r2]; [unfold full_stops in H; simpl in H; lia|].
  destruct (N.eqb_spec c 46) as [->|_]; [|reflexivity].
  destruct (span_digits r2) as [fp r3] eqn:S2.
  assert (H3 : 1 <= full_stops r3).
  { rewrite (span_digits_rest_stops _ S2).
    unfold full_stops in *. simpl in H.
    destruct (N.eq_dec 46 46); [lia|congruence]. }
  destruct r3; [unfold full_stops in H3; simpl in H3; lia|reflexivity].
Qed.

Lemma extract_price_two_stops (text : str) :
  2 <= full_stops text -> extract_price (Some text) = inr None.
Proof.
  intros H. rewrite extract_price_spec. f_equal.
  unfold price_as_specified.
  remember (filter (fun c => negb (c =? 44)%N) (filter price_char text))
    as cleaned eqn:E.
  assert (H2 : 2 <= full_stops cleaned).
  { subst cleaned. rewrite !full_stops_filter; [exact H| |reflexivity].
    unfold price_char. rewrite orb_true_r. reflexivity. }
  rewrite (py_float_two_stops _ H2).
  destruct cleaned; reflexivity.
Qed.

Lemma span_digits_all :
  forall s, Forall (fun c => is_digit c = true) s ->
            span_digits s = (digit_values_of s, []).
Proof.
  induction s as [|c s IH]; intros H; [reflexivity|].
  inversion H; subst. unfold is_digit in H2. simpl.
  destruct (decimal_digit c) as [d|]; [|discriminate].
  rewrite (IH H3). reflexivity.
Qed.

Lemma digit_values_of_filter (s : str) :
  digit_values_of (filter is_digit s) = digit_values_of s.
Proof.
  unfold digit_values_of, is_digit.
  induction s as [|c s IH]; [reflexivity|]. simpl.
  destruct (decimal_digit c) as [d|] eqn:D; simpl; rewrite ?D, IH; reflexivity.
Qed.

Lemma filter_digits_all (s : str) :
  Forall (fun c => is_digit c = true) (filter is_digit s).
Proof.
  apply Forall_forall. intros c H. apply filter_In in H. tauto.
Qed.

(** the characters [float] is handed when the text holds no full stop *)
Lemma cleaned_without_stops (s : str) :
  full_stops s = 0 ->
  filter (fun c => negb (c =? 44)%N) (filter price_char s)
  = filter is_digit s.
Proof.
  unfold full_stops. induction s as [|c s IH]; intros H; [reflexivity|].
  simpl in H. destruct (N.eq_dec c 46) as [->|N46]; [discriminate|].
  specialize (IH H). unfold price_char in *. simpl.
  destruct (is_digit c) eqn:D; simpl.
  - destruct (N.eqb_spec c 44) as [->|_]; simpl; [|rewrite IH; reflexivity].
    exfalso. unfold is_digit in D. destruct comma_plain as [E _].
    rewrite E in D. discriminate.
  - destruct (N.eqb_spec c 46) as [->|_]; [congruence|]. simpl.
    destruct (N.eqb_spec c 44) as [->|_]; simpl; [exact IH|exact IH].
Qed.

Lemma extract_price_leading_stop (pre body : str) :
  filter price_char pre = [46%N] ->
  full_stops body = 0 ->
  digit_values_of body <> [] ->
  extract_price (Some (pre ++ body))
  = inr (Some (float_of_decimal
                 (digits_value (digit_values_of body))
                 (N.of_nat (length (digit_values_of body))))).
Proof.
  intros Hpre Hs Hd. rewrite extract_price_spec. f_equal.
  unfold price_as_specified.
  rewrite !filter_app, Hpre.
  rewrite_plain (@cleaned_without_stops body Hs).
  change (filter (fun c => negb (c =? 44)%N) [46%N]) with [46%N].
  cbn [app]. unfold py_float. cbn [span_digits].
  destruct full_stop_plain as [E _]. rewrite E.
  cbn [N.eqb Pos.eqb].
  rewrite_plain (@span_digits_all _ (filter_digits_all body)).
  rewrite_plain (digit_values_of_filter body).
  cbn [app]. destruct (digit_values_of body); [congruence|reflexivity].
Qed.
End PriceEdges.

(** X6: a text with two or more full stops has no price, whatever else
    it holds: ["Rs. 1,299.00"] and ["1.299.000"] give [None]. *)
Theorem price_with_two_full_stops_is_none :
  forall (U : Unicode), UnicodeLaws U ->
  forall text, 2 <= full_stops text -> extract_price (Some text) = inr None.
Proof.
  intros U L text. apply extract_price_two_stops.
Qed.

Lemma price_with_two_full_stops_is_none_witness :
  extract_price (Some (u "Rs. 1,299.00")) = inr None.
Proof.
  apply (price_with_two_full_stops_is_none ascii_laws).
  vm_compute. lia.
Defined.

(** X7: when the only kept character before the digits is a full stop,
    as in ["Rs. 15,000"], every digit lands after the decimal point: the
    price is the number written by the digits divided by ten to the
    number of digits (0.15 here), not the number itself. *)
Theorem price_after_abbreviation_is_a_fraction :
  forall (U : Unicode), UnicodeLaws U ->
  forall pre body,
    filter price_char pre = [46%N] ->
    full_stops body = 0 ->
    digit_values_of body <> [] ->
    extract_price (Some (pre ++ body))
    = inr (Some (float_of_decimal
                   (digits_value (digit_values_of body))
                   (N.of_nat (length (digit_values_of body))))).
Proof.
  intros U L pre body. apply extract_price_leading_stop.
Qed.

Lemma price_after_abbreviation_is_a_fraction_witness :
  extract_price (Some (u "Rs." ++ u " 15,000"))
  = inr (Some (float_of_decimal 15000 5)).
Proof.
  apply (price_after_abbreviation_is_a_fraction ascii_laws
           (u "Rs.") (u " 15,000")).
  - vm_compute. reflexivity.
  - vm_compute. reflexivity.
  - vm_compute. discriminate.
Defined.

Lemma digits_value_acc (d : Decimal.uint) :
  forall acc,
    fold_left (fun a x => (a * 10 + x)%N) (uint_values d) (N.pos acc)
    = N.pos (Pos.of_uint_acc d acc).
Proof.
  induction d; intros acc; cbn [uint_values fold_left Pos.of_uint_acc];
    try reflexivity;
    match goal with
    | |- fold_left _ _ ?a = N.pos (Pos.of_uint_acc _ ?b) =>
        replace a with (N.pos b) by lia
    end; apply IHd.
Qed.

Lemma digits_value_of_uint (d : Decimal.uint) :
  digits_value (uint_values d) = N.of_uint d.
Proof.
  unfold digits_value, N.of_uint.
  induction d; cbn [uint_values fold_left Pos.of_uint]; try reflexivity;
    try exact IHd;
    match goal with
    | |- fold_left _ _ ?a = N.pos (Pos.of_uint_acc _ ?b) =>
        change a with (N.pos b)
    end; apply digits_value_acc.
Qed.

Lemma to_uint_not_nil (n : N) : N.to_uint n <> Decimal.Nil.
Proof.
  intros E. pose proof (DecimalN.Unsigned.of_to n) as H. rewrite E in H.
  destruct n; [discriminate E|discriminate H].
Qed.

Lemma printed_integer_values (n : N) :
  digits_value (uint_values (N.to_uint n)) = n /\
  uint_values (N.to_uint n) <> [].
Proof.
  rewrite digits_value_of_uint.
  split; [apply DecimalN.Unsigned.of_to|].
  pose proof (to_uint_not_nil n) as H.
  destruct (N.to_uint n); try discriminate. congruence.
Qed.

Section PrintedIntegers.
Context {U : Unicode} {L : UnicodeLaws U}.

Lemma extract_price_digits_only (text : str) :
  full_stops text = 0 ->
  digit_values_of text <> [] ->
  extract_price (Some text)
  = inr (Some (float_of_decimal (digits_value (digit_values_of text)) 0)).
Proof.
  intros Hs Hd. rewrite extract_price_spec. f_equal.
  unfold price_as_specified.
  rewrite_plain (@cleaned_without_stops U L text Hs).
  unfold py_float.
  rewrite_plain (@span_digits_all U _ (filter_digits_all text)).
  rewrite_plain (digit_values_of_filter text).
  pose proof (digit_values_of_filter text) as V.
  unfold str, codepoint in *.
  match goal with
  | |- match ?cleaned with [] => _ | _ :: _ => _ end = _ =>
      destruct cleaned as [|c cs]
  end.
  - simpl in V. congruence.
  - destruct (digit_values_of text) as [|v vs]; [congruence|reflexivity].
Qed.
End PrintedIntegers.

(** X8: reading a printed integer back: a text without a full stop whose
    decimal digits, taken by their values and in order, are the digits of
    [n] in base ten is priced at the float nearest [n], wherever currency
    signs, letters, spaces and separating commas stand in it and in
    whatever script the digits are written. *)
Theorem price_of_printed_integer :
  forall (U : Unicode), UnicodeLaws U ->
  forall (n : N) (text : str),
    full_stops text = 0 ->
    digit_values_of text = uint_values (N.to_uint n) ->
    extract_price (Some text) = inr (Some (float_of_decimal n 0)).
Proof.
  intros U L n text Hs Hd.
  destruct (printed_integer_values n) as [V NE].
  rewrite (extract_price_digits_only text Hs).
  - rewrite Hd, V. reflexivity.
  - rewrite Hd. exact NE.
Qed.

Lemma price_of_printed_integer_witness :
  extract_price (Some (u "₹ 1,29,999 only"))
  = inr (Some (float_of_decimal 129999 0)).
Proof.
  apply (price_of_printed_integer ascii_laws); vm_compute; reflexivity.
Defined.

(** ** More on discounts *)

Section DiscountEdges.
Context {U : Unicode} {L : UnicodeLaws U}.

Lemma digitless_no_percentage (text : str) :
  Forall (fun c => is_digit c = false) text ->
  forall pre n, ~ percentage_at text pre n.
Proof.
  intros H pre n (ws & post & -> & Hn & _).
  destruct (number_has_digit Hn) as (c & Hin & Hc).
  rewrite Forall_forall in H.
  assert (F : is_digit c = false).
  { apply H. apply in_or_app. right. apply in_or_app. left. exact Hin. }
  congruence.
Qed.

Lemma digitless_take_while (s : str) :
  Forall (fun c => is_digit c = false) s ->
  without_commas (take_while amount_char s) = [].
Proof.
  induction 1 as [|c s Hc Hs IH]; [reflexivity|].
  simpl. unfold amount_char. rewrite Hc. simpl.
  destruct (c =? 44)%N eqn:E; [|reflexivity].
  simpl. rewrite E. simpl. exact IH.
Qed.

Lemma digitless_drop_while (p : codepoint -> bool) (s : str) :
  Forall (fun c => is_digit c = false) s ->
  Forall (fun c => is_digit c = false) (drop_while p s).
Proof.
  induction 1 as [|c s Hc Hs IH]; [constructor|].
  simpl. destruct (p c); [exact IH|constructor; assumption].
Qed.

Lemma digitless_decimals (r : str) :
  Forall (fun c => is_digit c = false) r -> decimals r = [].
Proof.
  intros H. unfold decimals. destruct r as [|p [|d r']]; try reflexivity.
  inversion H as [|? ? _ H2]; subst. inversion H2 as [|? ? Hd _]; subst.
  rewrite Hd, andb_false_r. reflexivity.
Qed.

Lemma digitless_amount_here (s : str) :
  Forall (fun c => is_digit c = false) s ->
  without_commas (amount_here s) = [].
Proof.
  intros H. unfold amount_here, without_commas.
  rewrite filter_app.
  rewrite (digitless_decimals (digitless_drop_while amount_char H)).
  rewrite app_nil_r. exact (digitless_take_while H).
Qed.

Lemma digitless_first_amount (s : str) :
  Forall (fun c => is_digit c = false) s -> In 44%N s ->
  exists a, first_amount s = Some a /\ without_commas a = [].
Proof.
  induction s as [|c s IH]; intros H Hin; [destruct Hin|].
  cbn [first_amount]. destruct (amount_char c) eqn:A.
  - exists (amount_here (c :: s)). split; [reflexivity|].
    exact (digitless_amount_here H).
  - inversion H; subst. destruct Hin as [->|Hin].
    + unfold amount_char in A. rewrite N.eqb_refl, orb_true_r in A.
      discriminate.
    + exact (IH H3 Hin).
Qed.

Lemma comma_without_digit (text : str) :
  Forall (fun c => is_digit c = false) text -> In 44%N text ->
  extract_discount (Some text) = Some (u "₹").
Proof.
  intros H Hin. destruct text as [|c text]; [destruct Hin|].
  pose proof (@extract_discount_amount _ c text
                (search_percent_none (digitless_no_percentage H))) as E.
  destruct (digitless_first_amount H Hin) as (a & Ea & Wa).
  rewrite Ea, Wa in E. exact E.
Qed.

Lemma lstrip_nil (s : str) :
  lstrip s = [] -> Forall (fun c => is_space c = true) s.
Proof.
  induction s as [|c s IH]; intros H; [constructor|].
  simpl in H. destruct (is_space c) eqn:E; [|discriminate].
  constructor; [exact E|exact (IH H)].
Qed.

Lemma lstrip_spaces (s : str) :
  Forall (fun c => is_space c = true) s -> lstrip s = [].
Proof.
  induction 1 as [|c s Hc Hs IH]; [reflexivity|].
  simpl. rewrite Hc. exact IH.
Qed.

Lemma lstrip_head (s : str) :
  match lstrip s with
  | [] => True
  | c :: _ => is_space c = false
  end.
Proof.
  induction s as [|c s IH]; [exact I|].
  simpl. destruct (is_space c) eqn:E; [exact IH|exact E].
Qed.

Lemma strip_nil_iff (s : str) :
  strip s = [] <-> Forall (fun c => is_space c = true) s.
Proof.
  unfold strip, rstrip. split.
  - intros H.
    assert (H1 : lstrip (rev (lstrip s)) = []).
    { rewrite <- (rev_involutive (lstrip (rev (lstrip s)))), H. reflexivity. }
    apply lstrip_nil in H1.
    assert (H2 : Forall (fun c => is_space c = true) (lstrip s)).
    { rewrite <- (rev_involutive (lstrip s)). apply Forall_rev. exact H1. }
    pose proof (lstrip_head s) as Hh.
    destruct (lstrip s) as [|c t] eqn:E; [apply lstrip_nil; exact E|].
    inversion H2; subst. congruence.
  - intros H. rewrite (lstrip_spaces H). reflexivity.
Qed.

Lemma space_not_amount_char (c : codepoint) :
  is_space c = true -> amount_char c = false.
Proof.
  intros H. unfold amount_char, is_digit.
  rewrite (space_not_digit c H). simpl.
  destruct (N.eqb_spec c 44) as [->|_]; [|reflexivity].
  destruct comma_plain as [_ E]. congruence.
Qed.

Lemma no_discount_iff_blank (text : str) :
  extract_discount (Some text) = None <-> strip text = [].
Proof.
  split.
  - intros H. destruct text as [|c text]; [reflexivity|].
    destruct (search false percent_group percent_tail (c :: text))
      as [[pre [[g t] r]]|] eqn:S.
    + unfold extract_discount in H. rewrite S in H. discriminate.
    + pose proof (@extract_discount_amount _ c text S) as E.
      unfold str, codepoint in *. rewrite E in H. clear E.
      destruct (first_amount (c :: text)); [discriminate|].
      unfold or_none in H. destruct (strip (c :: text)); [reflexivity|discriminate].
  - intros H.
    assert (P : Forall (fun c => amount_char c = false) text).
    { apply strip_nil_iff in H. rewrite Forall_forall in *.
      intros c Hc. apply space_not_amount_char. exact (H c Hc). }
    rewrite (extract_discount_meets_contract (DiscountText P)), H.
    reflexivity.
Qed.

Lemma percent_result_is_fixed (text : str) :
  (exists pre n, percentage_at text pre n) ->
  exists s,
    extract_discount (Some text) = Some s /\
    extract_discount (Some s) = Some s.
Proof.
  intros H. destruct (extract_discount_percent_wins H)
    as (pre & n & (ws & post & _ & Hn & _) & E).
  exists (n ++ u "%"). split; [exact E|].
  apply extract_discount_meets_contract.
  apply (DiscountPercent (text:=n ++ u "%") (pre:=[]) (n:=n)).
  - exists [], []. split; [reflexivity|]. split; [exact Hn|constructor].
  - intros pre' n' _. simpl. lia.
Qed.
End DiscountEdges.

(** X9: a text with a comma and no digit gives the bare rupee sign: the
    amount pattern matches the comma alone and nothing is left of it once
    commas are stripped, so ["Hello, world"] gives ["₹"]. *)
Theorem discount_of_comma_without_digit :
  forall (U : Unicode), UnicodeLaws U ->
  forall text,
    Forall (fun c => is_digit c = false) text -> In 44%N text ->
    extract_discount (Some text) = Some (u "₹").
Proof.
  intros U L text. apply comma_without_digit.
Qed.

Lemma discount_of_comma_without_digit_witness :
  extract_discount (Some (u "Hello, world")) = Some (u "₹").
Proof.
  apply (discount_of_comma_without_digit ascii_laws).
  - vm_compute. repeat constructor.
  - vm_compute. tauto.
Defined.

(** X10: the discount normaliser has no value exactly for blank text:
    the result is [None] if and only if the text is empty or all white
    space. *)
Theorem discount_is_none_only_for_blank_text :
  forall (U : Unicode), UnicodeLaws U ->
  forall text, extract_discount (Some text) = None <-> strip text = [].
Proof.
  intros U L text. apply no_discount_iff_blank.
Qed.

Lemma discount_is_none_only_for_blank_text_witness :
  extract_discount (Some (u "   ")) = None.
Proof.
  apply (proj2 (discount_is_none_only_for_blank_text ascii_laws (u "   "))).
  reflexivity.
Defined.

(** X11: normalising a percentage result again changes nothing: when the
    text holds a percentage, the result is a text the normaliser maps to
    itself. *)
Theorem percentage_result_is_stable :
  forall (U : Unicode), UnicodeLaws U ->
  forall text,
    (exists pre n, percentage_at text pre n) ->
    exists s,
      extract_discount (Some text) = Some s /\
      extract_discount (Some s) = Some s.
Proof.
  intros U L text. apply percent_result_is_fixed.
Qed.

Lemma percentage_result_is_stable_witness :
  exists s,
    extract_discount (Some (u "Flat 12.5 % off")) = Some s /\
    extract_discount (Some s) = Some s.
Proof.
  apply (percentage_result_is_stable ascii_laws).
  exists (u "Flat "), (u "12.5"), (u " "), (u " off").
  split; [reflexivity|]. split.
  - right. exists (u "12"), (u "5"). split; [reflexivity|].
    split; (split; [discriminate|vm_compute; repeat constructor]).
  - vm_compute. repeat constructor.
Defined.

(** ** Visible text is trimmed *)

Section TrimmedFacts.
Context {U : Unicode}.

Lemma lstrip_fixed (c : codepoint) (s : str) :
  is_space c = false -> lstrip (c :: s) = c :: s.
Proof. intros H. simpl. rewrite H. reflexivity. Qed.

Lemma lstrip_idempotent (s : str) : lstrip (lstrip s) = lstrip s.
Proof.
  pose proof (lstrip_head s) as H.
  destruct (lstrip s) as [|c t]; [reflexivity|].
  exact (@lstrip_fixed c t H).
Qed.

Lemma lstrip_suffix (s : str) : exists pre, s = pre ++ lstrip s.
Proof.
  induction s as [|c s [pre IH]]; [exists []; reflexivity|].
  simpl. destruct (is_space c).
  - exists (c :: pre). simpl. rewrite <- IH. reflexivity.
  - exists []. reflexivity.
Qed.

Lemma lstrip_app_fixed (x y : str) :
  lstrip x = x -> x <> [] -> lstrip (x ++ y) = x ++ y.
Proof.
  intros H NE. pose proof (lstrip_head x) as Hh. rewrite H in Hh.
  destruct x as [|c x]; [congruence|].
  simpl. rewrite Hh. reflexivity.
Qed.

Lemma strip_is_trimmed (s : str) : trimmed (strip s).
Proof.
  unfold trimmed, strip, rstrip.
  set (t := lstrip s). set (l := lstrip (rev t)).
  split.
  - destruct (lstrip_suffix (rev t)) as [pre E]. fold l in E.
    assert (T : t = rev l ++ rev pre).
    { rewrite <- (rev_involutive t), E, rev_app_distr. reflexivity. }
    pose proof (lstrip_head s) as Hh. fold t in Hh.
    destruct (rev l) as [|c m]; [reflexivity|].
    rewrite T in Hh. simpl in Hh. exact (@lstrip_fixed c m Hh).
  - rewrite rev_involutive. apply lstrip_idempotent.
Qed.

Lemma trimmed_strip_fixed (s : str) : trimmed s -> strip s = s.
Proof.
  intros [H1 H2]. unfold strip, rstrip. rewrite H1, H2.
  apply rev_involutive.
Qed.

Lemma trimmed_app (a b : str) :
  trimmed a -> a <> [] -> trimmed b -> trimmed (a ++ b).
Proof.
  intros [A1 A2] NE [B1 B2]. split.
  - exact (@lstrip_app_fixed a b A1 NE).
  - rewrite rev_app_distr. destruct b as [|c b].
    + simpl. exact A2.
    + apply lstrip_app_fixed; [exact B2|].
      intros E. apply (f_equal (@length _)) in E.
      rewrite length_rev in E. discriminate.
Qed.

Lemma trimmed_concat (l : list str) :
  Forall (fun p => trimmed p /\ p <> []) l -> trimmed (concat l).
Proof.
  induction 1 as [|p l [Hp NE] Hl IH]; [split; reflexivity|].
  simpl. exact (@trimmed_app p (concat l) Hp NE IH).
Qed.

Lemma get_text_strip_trimmed (n : node) : trimmed (get_text_strip n).
Proof.
  unfold get_text_strip. apply trimmed_concat.
  apply Forall_forall. intros p Hp.
  apply filter_In in Hp. destruct Hp as [Hin NE].
  apply in_map_iff in Hin. destruct Hin as (s & <- & _).
  split; [apply strip_is_trimmed|].
  intros E. rewrite E in NE. discriminate.
Qed.

Lemma safe_get_text_stripped (element : option node) :
  strip (safe_get_text element []) = safe_get_text element [].
Proof.
  destruct element as [e|]; [|reflexivity].
  apply trimmed_strip_fixed. apply get_text_strip_trimmed.
Qed.
End TrimmedFacts.

(** X12: the text [safe_get_text] hands on (with the default [""]) never
    starts or ends with white space, so stripping it again changes
    nothing; hence the name of a record is never blank and never padded:
    it is absent, or a non-empty text equal to its own [strip]. *)
Theorem names_are_trimmed :
  (forall (U : Unicode) (element : option node),
     strip (safe_get_text element []) = safe_get_text element [])
  /\
  (forall (U : Unicode) (K : Markup), UnicodeLaws U ->
   forall (container : node) (w : world) (p : product) (s : str),
     fst (extract_product_data container w) = inr p ->
     product_name p = Some s ->
     s <> [] /\ strip s = s).
Proof.
  split.
  - intros U element. apply safe_get_text_stripped.
  - intros U K L container w p s E N.
    rewrite extract_product_data_run in E. cbn [fst] in E.
    injection E as <-. unfold assemble in N. cbn [product_name] in N.
    unfold field_text, or_none in N.
    pose proof (safe_get_text_stripped
                  (find_element_by_patterns container name_patterns)) as T.
    destruct (safe_get_text
                (find_element_by_patterns container name_patterns) [])
      as [|c t]; [discriminate|].
    injection N as <-. split; [discriminate|exact T].
Qed.

Lemma names_are_trimmed_witness :
  exists p,
    fst (extract_product_data two_part_heading steady_world) = inr p /\
    product_name p = Some (u "PhoneX") /\
    u "PhoneX" <> [] /\ strip (u "PhoneX") = u "PhoneX".
Proof.
  eexists. split; [vm_compute; reflexivity|].
  split; [vm_compute; reflexivity|].
  refine (proj2 names_are_trimmed ascii_unicode plain_serialiser ascii_laws
            two_part_heading steady_world _ (u "PhoneX") _ _).
  - vm_compute. reflexivity.
  - vm_compute. reflexivity.
Defined.

(** ** The data frame *)

Lemma keys_of_sourced_record (p : product) (url : str) :
  source_url p = Some url -> map fst (product_dict p) = column_order.
Proof.
  intros H. unfold product_dict. rewrite H. reflexivity.
Qed.

Lemma keys_union_step (ds : list (list (str * cell))) :
  Forall (fun d => map fst d = column_order) ds ->
  fold_left (fun acc d => fold_left add_key (map fst d) acc) ds column_order
  = column_order.
Proof.
  induction 1 as [|d ds Hd Hds IH]; [reflexivity|].
  cbn [fold_left]. rewrite Hd.
  replace (fold_left add_key column_order column_order) with column_order
    by (vm_compute; reflexivity).
  exact IH.
Qed.

Lemma keys_union_uniform (ds : list (list (str * cell))) :
  Forall (fun d => map fst d = column_order) ds -> ds <> [] ->
  keys_union ds = column_order.
Proof.
  intros H NE. destruct ds as [|d ds]; [congruence|].
  inversion H; subst. unfold keys_union. cbn [fold_left]. rewrite H2.
  replace (fold_left add_key column_order []) with column_order
    by (vm_compute; reflexivity).
  apply keys_union_step. exact H3.
Qed.

Lemma row_of_sourced_record (p : product) (url : str) :
  source_url p = Some url ->
  map (fun c => cell_at c (product_dict p)) column_order = product_row p.
Proof.
  intros H. destruct p as [n c m d r a t s]. simpl in H. subst s.
  vm_compute. reflexivity.
Qed.

Lemma reindex_row (row : list cell) :
  length row = 8 ->
  map (fun c => cell_at c (combine column_order row)) column_order = row.
Proof.
  intros H.
  destruct row as [|c1 [|c2 [|c3 [|c4 [|c5 [|c6 [|c7 [|c8 [|c9 row]]]]]]]]];
    try discriminate.
  vm_compute. reflexivity.
Qed.

Lemma frame_of_sourced_records (products : list product) (url : str) :
  (forall p, In p products -> source_url p = Some url) ->
  products <> [] ->
  reindex_columns column_order
    (DataFrame_of_records (map product_dict products))
  = Frame column_order (map product_row products).
Proof.
  intros H NE. unfold DataFrame_of_records, reindex_columns.
  assert (K : keys_union (map product_dict products) = column_order).
  { apply keys_union_uniform.
    - apply Forall_forall. intros d Hd. apply in_map_iff in Hd.
      destruct Hd as (p & <- & Hp).
      exact (keys_of_sourced_record p (H p Hp)).
    - destruct products; [congruence|discriminate]. }
  rewrite K. cbn [frame_columns frame_rows]. f_equal.
  rewrite !map_map. apply map_ext_in. intros p Hp.
  rewrite (row_of_sourced_record p (H p Hp)).
  apply reindex_row. reflexivity.
Qed.

(** X13: [scrape_to_dataframe] raises exactly when [scrape_listing_page]
    does, and the same exception; whenever the listing is returned the
    answer is a frame with the eight columns in their fixed order, also
    when nothing was scraped, with one row per record of the listing, in
    the same order, each row holding the fields of its record
    unchanged. *)
Theorem dataframe_has_fixed_schema :
  forall (U : Unicode) (K : Markup) (url : str) (w : world),
    (forall e w',
       scrape_listing_page url w = (inl e, w') ->
       scrape_to_dataframe url w = (inl e, w')) /\
    (forall products w',
       scrape_listing_page url w = (inr products, w') ->
       scrape_to_dataframe url w
       = (inr (Frame column_order (map product_row products)), w')).
Proof.
  intros U K url w. split.
  - intros e w' E. unfold scrape_to_dataframe, bind. rewrite E. reflexivity.
  - intros products w' E.
    pose proof (listing_sources url w E) as S.
    unfold scrape_to_dataframe, bind. rewrite E.
    destruct products as [|p ps] eqn:P; [reflexivity|].
    unfold ret. f_equal. f_equal.
    apply (frame_of_sourced_records (url:=url)); [exact S|discriminate].
Qed.

Lemma dataframe_has_fixed_schema_witness :
  exists products w',
    scrape_listing_page (u "https://shop.example/phones") steady_world
    = (inr products, w') /\
    scrape_to_dataframe (u "https://shop.example/phones") steady_world
    = (inr (Frame column_order (map product_row products)), w').
Proof.
  eexists. eexists. split.
  - rewrite scrape_listing_page_cases. cbn [fetch_page steady_world web fst].
    unfold extract_listing. rewrite scrape_loop_outcomes. reflexivity.
  - apply (proj2 (@dataframe_has_fixed_schema ascii_unicode plain_serialiser
                    (u "https://shop.example/phones") steady_world)).
    rewrite scrape_listing_page_cases. cbn [fetch_page steady_world web fst].
    unfold extract_listing. rewrite scrape_loop_outcomes. reflexivity.
Defined.

(** ** What a price depends on; when no discount is derived *)

Section PriceDependence.
Context {U : Unicode} {L : UnicodeLaws U}.

Lemma cleaned_is_digits_and_stops (text : str) :
  filter (fun c => negb (c =? 44)%N) (filter price_char text)
  = filter (fun c => is_digit c || (c =? 46)%N) text.
Proof.
  induction text as [|c text IH]; [reflexivity|].
  unfold price_char in *. simpl.
  destruct (is_digit c) eqn:D; simpl.
  - destruct (N.eqb_spec c 44) as [->|_]; simpl; [|rewrite IH; reflexivity].
    exfalso. unfold is_digit in D. destruct comma_plain as [E _].
    rewrite E in D. discriminate.
  - destruct (N.eqb_spec c 46) as [->|_]; simpl; [rewrite IH; reflexivity|].
    destruct (N.eqb_spec c 44) as [->|_]; simpl; exact IH.
Qed.

Lemma filter_idempotent (A : Type) (f : A -> bool) (l : list A) :
  filter f (filter f l) = filter f l.
Proof.
  induction l as [|a l IH]; [reflexivity|].
  simpl. destruct (f a) eqn:E; simpl; rewrite ?E, IH; reflexivity.
Qed.

Lemma price_depends_on_digits_and_stops (text : str) :
  extract_price (Some text)
  = extract_price
      (Some (filter (fun c => is_digit c || (c =? 46)%N) text)).
Proof.
  rewrite !extract_price_spec. f_equal. unfold price_as_specified.
  rewrite_plain (cleaned_is_digits_and_stops
                   (filter (fun c => is_digit c || (c =? 46)%N) text)).
  rewrite_plain (cleaned_is_digits_and_stops text).
  rewrite filter_idempotent. reflexivity.
Qed.
End PriceDependence.

(** X14: a price depends only on the decimal digits and full stops of the
    text, in their order: commas, currency signs, letters, signs and
    spaces may be added or removed anywhere without changing it. *)
Theorem price_ignores_everything_but_digits_and_stops :
  forall (U : Unicode), UnicodeLaws U ->
  forall text1 text2,
    filter (fun c => is_digit c || (c =? 46)%N) text1
    = filter (fun c => is_digit c || (c =? 46)%N) text2 ->
    extract_price (Some text1) = extract_price (Some text2).
Proof.
  intros U L text1 text2 H.
  rewrite (price_depends_on_digits_and_stops text1).
  rewrite (price_depends_on_digits_and_stops text2).
  unfold str, codepoint in *. rewrite H. reflexivity.
Qed.

Lemma price_ignores_everything_but_digits_and_stops_witness :
  extract_price (Some (u "MRP: ₹1,29,999.50/-"))
  = extract_price (Some (u "-129999.50 USD")).
Proof.
  apply (price_ignores_everything_but_digits_and_stops ascii_laws).
  vm_compute. reflexivity.
Defined.

Section NoDerivation.
Context {U : Unicode} {K : Markup} {L : UnicodeLaws U}.

Lemma no_discount_without_lower_price (container : node) (w : world)
      (p : product) :
  fst (extract_product_data container w) = inr p ->
  extract_discount (Some (field_text container discount_patterns)) = None ->
  (mrp p = None \/ current_price p = None \/
   exists m c, mrp p = Some m /\ current_price p = Some c /\
               float_ltb c m = false) ->
  discount p = None.
Proof.
  intros E X H. rewrite extract_product_data_run in E. cbn [fst] in E.
  injection E as <-. unfold assemble in *.
  cbn [discount mrp current_price] in *. rewrite X.
  unfold final_discount.
  destruct H as [-> |[-> |(m & c & -> & -> & Lt)]].
  - reflexivity.
  - destruct (price_as_specified (field_text container mrp_patterns));
      reflexivity.
  - rewrite Lt, !andb_false_r. reflexivity.
Qed.
End NoDerivation.

(** X15: without an extracted discount, a record gets no discount when a
    price is missing or when the current price is not below the list
    price: equal or inverted prices are never turned into a zero or
    negative discount. *)
Theorem no_derived_discount_without_lower_price :
  forall (U : Unicode) (K : Markup), UnicodeLaws U ->
  forall (container : node) (w : world) (p : product),
    fst (extract_product_data container w) = inr p ->
    extract_discount (Some (field_text container discount_patterns)) = None ->
    (mrp p = None \/ current_price p = None \/
     exists m c, mrp p = Some m /\ current_price p = Some c /\
                 float_ltb c m = false) ->
    discount p = None.
Proof.
  intros U K L container w p. apply no_discount_without_lower_price.
Qed.

Lemma no_derived_discount_without_lower_price_witness :
  exists p,
    fst (extract_product_data (priced "999" "1,299" []) steady_world) = inr p /\
    discount p = None.
Proof.
  eexists. split; [vm_compute; reflexivity|].
  refine (@no_derived_discount_without_lower_price ascii_unicode
            plain_serialiser ascii_laws (priced "999" "1,299" [])
            steady_world _ _ _ _).
  - vm_compute. reflexivity.
  - vm_compute. reflexivity.
  - right. right. eexists. eexists.
    split; [vm_compute; reflexivity|].
    split; [vm_compute; reflexivity|]. vm_compute. reflexivity.
Defined.
